(** * js-assignments, task 08: objects

    A shallow embedding of [task/08-objects-tasks.js] and the properties of
    its CSS selector builder, of [Rectangle] and of the JSON helpers.

    JavaScript strings are [string], the small integers of the stage
    bookkeeping are [Z], numbers are binary64 floats ([PrimFloat.float]).
    Methods mutate their receiver and may throw: they are functions from the
    receiver's state to the state after the call paired with either the
    exception thrown or the value returned.  The state after a [throw] is
    the state the exception left behind, as in JavaScript, where nothing is
    rolled back. *)

From Stdlib Require Import ZArith Bool List Sorted String Ascii Lia.
From Stdlib Require Import DecimalString DecimalZ DecimalN PrimFloat Uint63.
From Stdlib Require Import FloatOps.
From Stdlib Require Import FloatAxioms.
Import ListNotations.

Local Open Scope string_scope.
Local Open Scope Z_scope.

(** ** Exceptions and the method monad *)

(** The objects that are thrown: [new Error(message)] by [checkRules], and
    the [TypeError] and [SyntaxError] of the runtime. *)
Inductive exn : Type :=
  | Error (message : string)
  | TypeError (message : string)
  | SyntaxError (message : string).

Definition result (A : Type) : Type := (exn + A)%type.

(** A method with receiver state [S] and returned value [A]. *)
Definition method (S A : Type) : Type := S -> S * result A.

Definition ret {S A : Type} (a : A) : method S A :=
  fun this => (this, inr a).

Definition throw {S A : Type} (e : exn) : method S A :=
  fun this => (this, inl e).

Definition bind {S A B : Type} (m : method S A) (k : A -> method S B)
  : method S B :=
  fun this =>
    match m this with
    | (this', inr a) => k a this'
    | (this', inl e) => (this', inl e)
    end.

Definition get {S : Type} : method S S :=
  fun this => (this, inr this).

Definition modify {S : Type} (f : S -> S) : method S unit :=
  fun this => (f this, inr tt).

Declare Scope method_scope.
Delimit Scope method_scope with method.
Notation "x <- m ;; k" := (bind m (fun x => k))
  (at level 61, m at next level, right associativity) : method_scope.
Notation "m ;; k" := (bind m (fun _ => k))
  (at level 61, right associativity) : method_scope.

(** [if (c) throw e;] *)
Definition throw_if {S : Type} (c : bool) (e : exn) : method S unit :=
  if c then throw e else ret tt.

(** ** Arrays of the runtime *)

(** [Array.prototype.indexOf] with strict equality on numbers: the index of
    the first occurrence, [-1] when there is none. *)
Fixpoint indexOf_from (i : Z) (l : list Z) (x : Z) : Z :=
  match l with
  | [] => -1
  | y :: l' => if y =? x then i else indexOf_from (i + 1) l' x
  end.

Definition indexOf (l : list Z) (x : Z) : Z := indexOf_from 0 l x.

(** [Array.prototype.reduce] with an initial value. *)
Definition reduce {A B : Type} (f : B -> A -> B) (init : B) (l : list A) : B :=
  fold_left f l init.

(** What [toString] receives as [items]: [null], a string, or an array of
    strings. *)
Inductive items : Type :=
  | Null
  | Str (s : string)
  | Arr (l : list string).

(** JavaScript truthiness: [null] and the empty string are falsy, every
    array is truthy. *)
Definition truthy (v : items) : bool :=
  match v with
  | Null => false
  | Str s => negb (String.eqb s "")
  | Arr _ => true
  end.

Definition isArray (v : items) : bool :=
  match v with Arr _ => true | _ => false end.

Definition isNull (v : items) : bool :=
  match v with Null => true | _ => false end.

(** A field that holds [null] or a string, as a value. *)
Definition nullable (o : option string) : items :=
  match o with
  | None => Null
  | Some s => Str s
  end.

(** ** CssSelector *)

Module CssSelector.

Record t : Type := mk {
  elementItem : option string;     (* null or the value *)
  idItem : option string;
  classItems : list string;
  attrItems : list string;
  pseudoClassItems : list string;
  pseudoElementItem : option string;
  multipleDataItem : list Z;
  rank : Z
}.

(** [new CssSelector()] *)
Definition new : t := {|
  elementItem := None;
  idItem := None;
  classItems := [];
  attrItems := [];
  pseudoClassItems := [];
  pseudoElementItem := None;
  multipleDataItem := [3; 4; 5];
  rank := 0
|}.

(** Assignments to one field of [this]. *)
Definition set_rank (r : Z) (this : t) : t :=
  mk (elementItem this) (idItem this) (classItems this) (attrItems this)
     (pseudoClassItems this) (pseudoElementItem this)
     (multipleDataItem this) r.

Definition set_elementItem (v : option string) (this : t) : t :=
  mk v (idItem this) (classItems this) (attrItems this)
     (pseudoClassItems this) (pseudoElementItem this)
     (multipleDataItem this) (rank this).

Definition set_idItem (v : option string) (this : t) : t :=
  mk (elementItem this) v (classItems this) (attrItems this)
     (pseudoClassItems this) (pseudoElementItem this)
     (multipleDataItem this) (rank this).

Definition set_pseudoElementItem (v : option string) (this : t) : t :=
  mk (elementItem this) (idItem this) (classItems this) (attrItems this)
     (pseudoClassItems this) v
     (multipleDataItem this) (rank this).

(** [this.classItems.push(value)] and its two siblings. *)
Definition push_classItems (v : string) (this : t) : t :=
  mk (elementItem this) (idItem this) (classItems this ++ [v])
     (attrItems this) (pseudoClassItems this) (pseudoElementItem this)
     (multipleDataItem this) (rank this).

Definition push_attrItems (v : string) (this : t) : t :=
  mk (elementItem this) (idItem this) (classItems this)
     (attrItems this ++ [v]) (pseudoClassItems this) (pseudoElementItem this)
     (multipleDataItem this) (rank this).

Definition push_pseudoClassItems (v : string) (this : t) : t :=
  mk (elementItem this) (idItem this) (classItems this)
     (attrItems this) (pseudoClassItems this ++ [v]) (pseudoElementItem this)
     (multipleDataItem this) (rank this).

Definition duplicate_message : string :=
  "Element, id and pseudo-element should not occur more then one time inside the selector".

Definition order_message : string :=
  "Selector parts should be arranged in the following order: element, id, class, attribute, pseudo-class, pseudo-element".

Local Open Scope method_scope.

Definition checkRules (stageIndex : Z) : method t unit :=
  this <- get ;;
  throw_if ((rank this =? stageIndex)
            && (indexOf (multipleDataItem this) stageIndex =? -1))
           (Error duplicate_message) ;;
  this <- get ;;
  throw_if (stageIndex <? rank this) (Error order_message).

(** The six part methods return [this]; here the receiver is the state, so
    chaining is sequencing and the returned value is [tt]. *)
Definition element (value : string) : method t unit :=
  checkRules 1 ;;
  modify (set_rank 1) ;;
  modify (set_elementItem (Some value)).

Definition id (value : string) : method t unit :=
  checkRules 2 ;;
  modify (set_rank 2) ;;
  modify (set_idItem (Some value)).

Definition class (value : string) : method t unit :=
  checkRules 3 ;;
  modify (set_rank 3) ;;
  modify (push_classItems value).

Definition attr (value : string) : method t unit :=
  checkRules 4 ;;
  modify (set_rank 4) ;;
  modify (push_attrItems value).

Definition pseudoClass (value : string) : method t unit :=
  checkRules 5 ;;
  modify (set_rank 5) ;;
  modify (push_pseudoClassItems value).

Definition pseudoElement (value : string) : method t unit :=
  checkRules 6 ;;
  modify (set_rank 6) ;;
  modify (set_pseudoElementItem (Some value)).

(** [items.reduce(...)]: a [TypeError] when [items] has no [reduce], that
    is when it is not an array. *)
Definition toString (v : items) (before after : string) : method t string :=
  let v := if truthy v then v else Arr [] in
  let v := if negb (isArray v) && negb (isNull v)
           then match v with Str s => Arr [s] | _ => v end
           else v in
  match v with
  | Arr l =>
      ret (reduce (fun prev curr => ((prev ++ before) ++ curr) ++ after)%string
                  "" l)
  | _ => throw (TypeError "items.reduce is not a function")
  end.

Definition stringify : method t string :=
  this <- get ;;
  e <- toString (nullable (elementItem this)) "" "" ;;
  i <- toString (nullable (idItem this)) "#" "" ;;
  c <- toString (Arr (classItems this)) "." "" ;;
  a <- toString (Arr (attrItems this)) "[" "]" ;;
  p <- toString (Arr (pseudoClassItems this)) ":" "" ;;
  q <- toString (nullable (pseudoElementItem this)) "::" "" ;;
  ret (((((e ++ i) ++ c) ++ a) ++ p) ++ q)%string.

End CssSelector.

(** ** CssSelectorCombinator *)

(** A selector-like object: a [CssSelector], or a [CssSelectorCombinator]
    holding two selector-like objects and the combinator between them. *)
Inductive selector : Type :=
  | Selector (s : CssSelector.t)
  | Combinator (selector1 : selector) (combinator : string)
               (selector2 : selector).

Module CssSelectorCombinator.

(** [new CssSelectorCombinator(selector1, combinator, selector2)] *)
Definition new (selector1 : selector) (combinator : string)
           (selector2 : selector) : selector :=
  Combinator selector1 combinator selector2.

(** [stringify] of a selector-like object, dispatched on the object:
    [CssSelector.prototype.stringify] for a selector, and for a combinator
    [this.selector1.stringify() + " " + this.combinator + " "
     + this.selector2.stringify()], the operands visited left to right. *)
Fixpoint stringify (this : selector) : selector * result string :=
  match this with
  | Selector s =>
      let r := CssSelector.stringify s in (Selector (fst r), snd r)
  | Combinator selector1 combinator selector2 =>
      match stringify selector1 with
      | (selector1', inl e) =>
          (Combinator selector1' combinator selector2, inl e)
      | (selector1', inr str1) =>
          match stringify selector2 with
          | (selector2', inl e) =>
              (Combinator selector1' combinator selector2', inl e)
          | (selector2', inr str2) =>
              (Combinator selector1' combinator selector2',
               inr ((((str1 ++ " ") ++ combinator) ++ " ") ++ str2)%string)
          end
      end
  end.

End CssSelectorCombinator.

(** ** cssSelectorBuilder *)

Module cssSelectorBuilder.

(** [new CssSelector().part(value)]: the object the call returns, or the
    exception it throws. *)
Definition start (part : method CssSelector.t unit) : result CssSelector.t :=
  match part CssSelector.new with
  | (this, inr _) => inr this
  | (_, inl e) => inl e
  end.

Definition element (value : string) := start (CssSelector.element value).
Definition id (value : string) := start (CssSelector.id value).
Definition class (value : string) := start (CssSelector.class value).
Definition attr (value : string) := start (CssSelector.attr value).
Definition pseudoClass (value : string) :=
  start (CssSelector.pseudoClass value).
Definition pseudoElement (value : string) :=
  start (CssSelector.pseudoElement value).

Definition combine (selector1 : selector) (combinator : string)
           (selector2 : selector) : selector :=
  CssSelectorCombinator.new selector1 combinator selector2.

End cssSelectorBuilder.

(** ** Calls on one selector *)

(** The six kinds of selector part. *)
Inductive category : Type :=
  | ElementPart
  | IdPart
  | ClassPart
  | AttributePart
  | PseudoClassPart
  | PseudoElementPart.

Definition category_eqb (a b : category) : bool :=
  match a, b with
  | ElementPart, ElementPart
  | IdPart, IdPart
  | ClassPart, ClassPart
  | AttributePart, AttributePart
  | PseudoClassPart, PseudoClassPart
  | PseudoElementPart, PseudoElementPart => true
  | _, _ => false
  end.

(** A call of a part method: which one, and its argument. *)
Definition call : Type := (category * string)%type.

Definition invoke (c : call) : method CssSelector.t unit :=
  match fst c with
  | ElementPart => CssSelector.element (snd c)
  | IdPart => CssSelector.id (snd c)
  | ClassPart => CssSelector.class (snd c)
  | AttributePart => CssSelector.attr (snd c)
  | PseudoClassPart => CssSelector.pseudoClass (snd c)
  | PseudoElementPart => CssSelector.pseudoElement (snd c)
  end.

(** The literal each part method hands to [checkRules] and stores in
    [rank]. *)
Definition stageIndex (k : category) : Z :=
  match k with
  | ElementPart => 1
  | IdPart => 2
  | ClassPart => 3
  | AttributePart => 4
  | PseudoClassPart => 5
  | PseudoElementPart => 6
  end.

(** A chain [s.m1(v1).m2(v2)...]: the first exception ends it. *)
Fixpoint chain (cs : list call) : method CssSelector.t unit :=
  match cs with
  | [] => ret tt
  | c :: cs' => bind (invoke c) (fun _ => chain cs')
  end.

Definition returned {S A : Type} (r : S * result A) : bool :=
  match snd r with
  | inr _ => true
  | inl _ => false
  end.

(** Calls made one after the other on the same object by a caller that
    catches the exceptions: the object after them all, and the calls among
    them that returned normally. *)
Fixpoint after (cs : list call) (this : CssSelector.t) : CssSelector.t :=
  match cs with
  | [] => this
  | c :: cs' => after cs' (fst (invoke c this))
  end.

Fixpoint recorded (cs : list call) (this : CssSelector.t) : list call :=
  match cs with
  | [] => []
  | c :: cs' =>
      let r := invoke c this in
      if returned r then c :: recorded cs' (fst r) else recorded cs' (fst r)
  end.

(** The states a selector made by [new CssSelector()] can be in. *)
Definition reachable (s : CssSelector.t) : Prop :=
  exists cs, s = after cs CssSelector.new.

(** ** The specification's vocabulary *)

(** The canonical order of the categories,
    element < id < class < attribute < pseudo-class < pseudo-element. *)
Definition canonical_order : list category :=
  [ElementPart; IdPart; ClassPart; AttributePart; PseudoClassPart;
   PseudoElementPart].

Fixpoint position (k : category) (l : list category) : nat :=
  match l with
  | [] => O
  | k' :: l' => if category_eqb k k' then O else S (position k l')
  end.

(** [k1] is strictly earlier than [k2]. *)
Definition earlier (k1 k2 : category) : Prop :=
  (position k1 canonical_order < position k2 canonical_order)%nat.

Definition singleton (k : category) : bool :=
  match k with
  | ElementPart | IdPart | PseudoElementPart => true
  | _ => false
  end.

Definition multi_valued (k : category) : bool :=
  match k with
  | ClassPart | AttributePart | PseudoClassPart => true
  | _ => false
  end.

(** The category most recently recorded, [None] before any. *)
Definition lastCategory (done : list call) : option category :=
  match rev done with
  | [] => None
  | c :: _ => Some (fst c)
  end.

(** The arguments of the calls of one category, in call order. *)
Definition values_of (k : category) (cs : list call) : list string :=
  map snd (filter (fun c => category_eqb (fst c) k) cs).

(** The argument of the call of a singleton category, if there was one. *)
Definition value_of (k : category) (cs : list call) : option string :=
  match rev (values_of k cs) with
  | [] => None
  | v :: _ => Some v
  end.

(** How one part is written. *)
Definition render (k : category) (v : string) : string :=
  match k with
  | ElementPart => v
  | IdPart => "#" ++ v
  | ClassPart => "." ++ v
  | AttributePart => "[" ++ v ++ "]"
  | PseudoClassPart => ":" ++ v
  | PseudoElementPart => "::" ++ v
  end.

Definition render_all (k : category) (vs : list string) : string :=
  String.concat "" (map (render k) vs).

(** A singleton part, written when it is present. *)
Definition render_present (k : category) (o : option string) : string :=
  match o with
  | None => ""
  | Some v => render k v
  end.

(** A singleton part, written when it is present and not empty. *)
Definition render_nonempty (k : category) (o : option string) : string :=
  match o with
  | None => ""
  | Some v => if String.eqb v "" then "" else render k v
  end.

(** The output the specification describes for the calls [cs]: the parts
    in the fixed category order, each singleton written when present. *)
Definition stringify_spec (cs : list call) : string :=
  render_present ElementPart (value_of ElementPart cs)
  ++ render_present IdPart (value_of IdPart cs)
  ++ render_all ClassPart (values_of ClassPart cs)
  ++ render_all AttributePart (values_of AttributePart cs)
  ++ render_all PseudoClassPart (values_of PseudoClassPart cs)
  ++ render_present PseudoElementPart (value_of PseudoElementPart cs).

(** The same with an id and a pseudo-element written only when they are
    not the empty string. *)
Definition stringify_spec_nonempty (cs : list call) : string :=
  render_present ElementPart (value_of ElementPart cs)
  ++ render_nonempty IdPart (value_of IdPart cs)
  ++ render_all ClassPart (values_of ClassPart cs)
  ++ render_all AttributePart (values_of AttributePart cs)
  ++ render_all PseudoClassPart (values_of PseudoClassPart cs)
  ++ render_nonempty PseudoElementPart (value_of PseudoElementPart cs).

(** * Rectangle and the JSON helpers *)

(** ** Values and objects of the runtime *)

(** The prototype objects of this module's data: [Object.prototype] of the
    objects [JSON.parse] makes, [Array.prototype] of its arrays, and
    [Rectangle.prototype]. *)
Inductive prototype : Type :=
  | ObjectPrototype
  | ArrayPrototype
  | RectanglePrototype.

(** Plain data and objects that have one of these prototypes.  An object
    holds its own properties in the order the runtime enumerates them. *)
#[warnings="-register-all"]
Inductive value : Type :=
  | JUndefined
  | JNull
  | JBoolean (b : bool)
  | JNumber (n : float)
  | JString (s : string)
  | JArray (proto : prototype) (elements : list value)
  | JObject (proto : prototype) (properties : list (string * value)).

Definition and_then {A B : Type} (r : result A) (k : A -> result B)
  : result B :=
  match r with
  | inl e => inl e
  | inr a => k a
  end.

Fixpoint lookup (key : string) (l : list (string * value)) : option value :=
  match l with
  | [] => None
  | (k, v) :: l' => if String.eqb k key then Some v else lookup key l'
  end.

(** The array index a property key stands for: the key is the decimal text
    of a number below 2^32 - 1, without sign or leading zero. *)
Definition index_of (key : string) : option N :=
  match NilZero.uint_of_string key with
  | Some u =>
      let n := N.of_uint u in
      if String.eqb (NilZero.string_of_uint (N.to_uint n)) key
         && (n <? 4294967295)%N
      then Some n
      else None
  | None => None
  end.

Fixpoint overwrite (key : string) (v : value) (l : list (string * value))
  : list (string * value) :=
  match l with
  | [] => []
  | (k, x) :: l' =>
      if String.eqb k key then (k, v) :: l' else (k, x) :: overwrite key v l'
  end.

Fixpoint insert_index (i : N) (key : string) (v : value)
         (l : list (string * value)) : list (string * value) :=
  match l with
  | [] => [(key, v)]
  | (k, x) :: l' =>
      match index_of k with
      | Some j =>
          if (j <? i)%N then (k, x) :: insert_index i key v l'
          else (key, v) :: (k, x) :: l'
      | None => (key, v) :: (k, x) :: l'
      end
  end.

(** Writing a property keeps the place of one that exists; a new one goes
    where the runtime enumerates it: among the array indices in ascending
    order, which come first, or else last. *)
Definition assign (key : string) (v : value) (l : list (string * value))
  : list (string * value) :=
  match lookup key l with
  | Some _ => overwrite key v l
  | None =>
      match index_of key with
      | Some i => insert_index i key v l
      | None => l ++ [(key, v)]
      end
  end.

Definition is_object (v : value) : bool :=
  match v with
  | JArray _ _ | JObject _ _ => true
  | _ => false
  end.

(** [v] with the prototypes [JSON.parse] gives what it makes. *)
Definition plain (v : value) : value :=
  match v with
  | JArray _ elements => JArray ArrayPrototype elements
  | JObject _ properties => JObject ObjectPrototype properties
  | _ => v
  end.

(** [v] with the prototype [proto]. *)
Definition with_prototype (proto : prototype) (v : value) : value :=
  match v with
  | JArray _ elements => JArray proto elements
  | JObject _ properties => JObject proto properties
  | _ => v
  end.

(** What [JSON.stringify] returns, a string or [undefined], as the string
    [JSON.parse] makes of it. *)
Definition text (t : option string) : string :=
  match t with
  | Some s => s
  | None => "undefined"
  end.

Section Runtime.

(** The conversions to a number that the runtime applies to a string, and
    to an object, where it can throw: a [TypeError] for an object that has
    no callable [valueOf] or [toString] giving a primitive. *)
Variable StringToNumber : string -> float.
Variable ObjectToNumber : value -> result float.

Definition ToNumber (v : value) : result float :=
  match v with
  | JUndefined => inr nan
  | JNull => inr 0%float
  | JBoolean b => inr (if b then 1 else 0)%float
  | JNumber n => inr n
  | JString s => inr (StringToNumber s)
  | JArray _ _ | JObject _ _ => ObjectToNumber v
  end.

(** [a * b]: the left operand is converted first. *)
Definition multiply (a b : value) : result value :=
  and_then (ToNumber a) (fun x =>
  and_then (ToNumber b) (fun y =>
  inr (JNumber (x * y)))).

(** [this.key], for a key that names no property of a prototype, no index
    and no length, as [width] and [height]. *)
Definition getProperty (this : value) (key : string) : result value :=
  match this with
  | JUndefined | JNull =>
      inl (TypeError "Cannot read properties of undefined or null")
  | JObject _ properties =>
      inr (match lookup key properties with
           | Some v => v
           | None => JUndefined
           end)
  | _ => inr JUndefined
  end.

(** [this.key = v] on an object. *)
Definition setProperty (this : value) (key : string) (v : value) : value :=
  match this with
  | JObject proto properties => JObject proto (assign key v properties)
  | _ => this
  end.

(** [new Rectangle(width, height)] *)
Definition Rectangle (width height : value) : value :=
  let this := JObject RectanglePrototype [] in
  let this := setProperty this "width" width in
  let this := setProperty this "height" height in
  this.

(** [Rectangle.prototype.getArea] *)
Definition getArea (this : value) : result value :=
  and_then (getProperty this "width") (fun width =>
  and_then (getProperty this "height") (fun height =>
  multiply width height)).

(** The methods this module gives its prototypes. *)
Definition methodOf (proto : prototype) (name : string)
  : option (value -> result value) :=
  match proto with
  | RectanglePrototype =>
      if String.eqb name "getArea" then Some getArea else None
  | _ => None
  end.

(** [o.name()], for a name that no built-in prototype defines: an own
    property comes first, and it is data, not a function. *)
Definition callMethod (o : value) (name : string) : result value :=
  let inherited (proto : prototype) :=
    match methodOf proto name with
    | Some f => f o
    | None => inl (TypeError "not a function")
    end in
  match o with
  | JUndefined | JNull =>
      inl (TypeError "Cannot read properties of undefined or null")
  | JObject proto properties =>
      match lookup name properties with
      | Some _ => inl (TypeError "not a function")
      | None => inherited proto
      end
  | JArray proto _ => inherited proto
  | _ => inl (TypeError "not a function")
  end.

(** [Object.setPrototypeOf(O, proto)] for a prototype object [proto]. *)
Definition setPrototypeOf (O : value) (proto : prototype) : result value :=
  match O with
  | JUndefined | JNull =>
      inl (TypeError "Object.setPrototypeOf called on null or undefined")
  | JArray _ _ | JObject _ _ => inr (with_prototype proto O)
  | _ => inr O
  end.

(** [JSON.stringify] and [JSON.parse] of the runtime. *)
Variable JSON_stringify : value -> option string.
Variable JSON_parse : string -> result value.

Definition getJSON (obj : value) : option string :=
  JSON_stringify obj.

Definition fromJSON (proto : prototype) (json : string) : result value :=
  and_then (JSON_parse json) (fun o => setPrototypeOf o proto).

(** [v] comes back from its JSON text as plain data with the same
    content. *)
Definition representable (v : value) : Prop :=
  JSON_parse (text (JSON_stringify v)) = inr (plain v).

End Runtime.

(** ** A JSON printer and reader

    [JSON.stringify] and [JSON.parse] over the values above, given the
    runtime's conversions between numbers and their decimal texts.  Strings
    are sequences of 8-bit characters here, so an escape [\uXXXX] above
    [\u00ff] is not read. *)

Definition dquote : ascii := ascii_of_nat 34.
Definition backslash : ascii := ascii_of_nat 92.

Definition is_digit (c : ascii) : bool :=
  (48 <=? nat_of_ascii c)%nat && (nat_of_ascii c <=? 57)%nat.

Definition is_space (c : ascii) : bool :=
  match nat_of_ascii c with
  | 9%nat | 10%nat | 13%nat | 32%nat => true
  | _ => false
  end.

Definition is_control (c : ascii) : bool := (nat_of_ascii c <? 32)%nat.

Definition hex_digit (n : nat) : ascii :=
  nth n (list_ascii_of_string "0123456789abcdef") "0"%char.

Definition hex_value (c : ascii) : option nat :=
  let n := nat_of_ascii c in
  if is_digit c then Some (n - 48)%nat
  else if (97 <=? n)%nat && (n <=? 102)%nat then Some (n - 87)%nat
  else if (65 <=? n)%nat && (n <=? 70)%nat then Some (n - 55)%nat
  else None.

(** One character inside a JSON string. *)
Definition escape_char (c : ascii) : string :=
  if Ascii.eqb c dquote then String backslash (String dquote "")
  else if Ascii.eqb c backslash then String backslash (String backslash "")
  else match nat_of_ascii c with
       | 8%nat => "\b"
       | 9%nat => "\t"
       | 10%nat => "\n"
       | 12%nat => "\f"
       | 13%nat => "\r"
       | n =>
           if (n <? 32)%nat
           then "\u00" ++ String (hex_digit (n / 16))
                                 (String (hex_digit (n mod 16)) "")
           else String c ""
       end.

Fixpoint escape (s : string) : string :=
  match s with
  | "" => ""
  | String c s' => escape_char c ++ escape s'
  end.

Definition quote (s : string) : string :=
  String dquote (escape s ++ String dquote "").

Definition is_finite (n : float) : bool :=
  negb (is_nan n || is_infinity n).

Fixpoint skip_space (s : string) : string :=
  match s with
  | "" => ""
  | String c s' => if is_space c then skip_space s' else s
  end.

(** [s] without the prefix [k], when it starts with [k]. *)
Fixpoint strip_prefix (k s : string) : option string :=
  match k, s with
  | "", _ => Some s
  | String a k', String b s' =>
      if Ascii.eqb a b then strip_prefix k' s' else None
  | _, _ => None
  end.

(** The digits [s] starts with, and what follows them. *)
Fixpoint digits (s : string) : string * string :=
  match s with
  | "" => ("", "")
  | String c s' =>
      if is_digit c
      then let (d, rest) := digits s' in (String c d, rest)
      else ("", s)
  end.

Definition unexpected {A : Type} : result A :=
  inl (SyntaxError "Unexpected token in JSON").

(** The characters of a string after its opening quote, up to the closing
    one, and what follows it. *)
Fixpoint read_string (s : string) : result (string * string) :=
  let cons (c : ascii) (r : result (string * string)) :=
    and_then r (fun p => inr (String c (fst p), snd p)) in
  match s with
  | "" => inl (SyntaxError "Unterminated string in JSON")
  | String c s' =>
      if Ascii.eqb c dquote then inr ("", s')
      else if Ascii.eqb c backslash then
        match s' with
        | String e s'' =>
            if Ascii.eqb e dquote then cons dquote (read_string s'')
            else if Ascii.eqb e backslash then cons backslash (read_string s'')
            else if Ascii.eqb e "/" then cons "/"%char (read_string s'')
            else if Ascii.eqb e "b" then cons (ascii_of_nat 8) (read_string s'')
            else if Ascii.eqb e "f" then cons (ascii_of_nat 12) (read_string s'')
            else if Ascii.eqb e "n" then cons (ascii_of_nat 10) (read_string s'')
            else if Ascii.eqb e "r" then cons (ascii_of_nat 13) (read_string s'')
            else if Ascii.eqb e "t" then cons (ascii_of_nat 9) (read_string s'')
            else if Ascii.eqb e "u" then
              match s'' with
              | String h1 (String h2 (String h3 (String h4 s4))) =>
                  match hex_value h1, hex_value h2, hex_value h3, hex_value h4
                  with
                  | Some O, Some O, Some a, Some b =>
                      cons (ascii_of_nat (16 * a + b)) (read_string s4)
                  | _, _, _, _ => unexpected
                  end
              | _ => unexpected
              end
            else unexpected
        | "" => inl (SyntaxError "Unterminated string in JSON")
        end
      else if is_control c then unexpected
      else cons c (read_string s')
  end.

(** The keys of an object in the order the runtime enumerates them: a key
    that is not among those before it and, when it is an array index, comes
    after array indices only, all of them smaller. *)
Definition comes_last (seen : list string) (key : string) : bool :=
  negb (existsb (String.eqb key) seen)
  && match index_of key with
     | Some i =>
         forallb (fun k => match index_of k with
                           | Some j => (j <? i)%N
                           | None => false
                           end) seen
     | None => true
     end.

Fixpoint enumerated (seen keys : list string) : bool :=
  match keys with
  | [] => true
  | k :: keys' => comes_last seen k && enumerated (seen ++ [k]) keys'
  end.

Section Codec.

(** The runtime's conversions between a number and its decimal text. *)
Variable NumberToString : float -> string.
Variable StringToNumber : string -> float.

(** [JSON.stringify(v)]: [None] is [undefined]. *)
Fixpoint print (v : value) : option string :=
  match v with
  | JUndefined => None
  | JNull => Some "null"
  | JBoolean b => Some (if b then "true" else "false")
  | JNumber n => Some (if is_finite n then NumberToString n else "null")
  | JString s => Some (quote s)
  | JArray _ elements =>
      Some ("[" ++ String.concat ","
                     (map (fun e => match print e with
                                    | Some t => t
                                    | None => "null"
                                    end) elements)
                ++ "]")
  | JObject _ properties =>
      Some ("{" ++ String.concat ","
                     (flat_map (fun kv =>
                                  let '(k, x) := kv in
                                  match print x with
                                  | Some t => [quote k ++ ":" ++ t]
                                  | None => []
                                  end) properties)
                ++ "}")
  end.

(** The parts of a number: [-]? int frac? exp?. *)
Definition read_sign (s : string) : string * string :=
  match s with
  | String c s' => if Ascii.eqb c "-" then ("-", s') else ("", s)
  | "" => ("", "")
  end.

Definition read_fraction (s : string) : string * string :=
  match s with
  | String c s' =>
      if Ascii.eqb c "."
      then let (d, rest) := digits s' in (String c d, rest)
      else ("", s)
  | "" => ("", "")
  end.

Definition read_exponent (s : string) : string * string :=
  match s with
  | String c s' =>
      if Ascii.eqb c "e" || Ascii.eqb c "E"
      then match s' with
           | String g s'' =>
               if Ascii.eqb g "+" || Ascii.eqb g "-"
               then let (d, rest) := digits s'' in
                    (String c (String g d), rest)
               else let (d, rest) := digits s' in (String c d, rest)
           | "" => (String c "", "")
           end
      else ("", s)
  | "" => ("", "")
  end.

(** An int has a digit, and no leading zero before another digit; a frac
    has a digit after its point; an exp ends with a digit. *)
Definition valid_int (int : string) : bool :=
  match int with
  | "" => false
  | String c (String _ _) => negb (Ascii.eqb c "0")
  | String _ "" => true
  end.

Definition valid_fraction (frac : string) : bool :=
  negb (String.length frac =? 1)%nat.

Definition valid_exponent (exp : string) : bool :=
  match exp with
  | "" => true
  | String _ "" => false
  | String _ (String g "") => is_digit g
  | String _ (String _ (String _ _)) => true
  end.

(** A number at the head of [s], its text converted by the runtime. *)
Definition read_number (s : string) : result (value * string) :=
  let (sign, s1) := read_sign s in
  let (int, s2) := digits s1 in
  let (frac, s3) := read_fraction s2 in
  let (exp, s4) := read_exponent s3 in
  if valid_int int && valid_fraction frac && valid_exponent exp
  then inr (JNumber (StringToNumber (sign ++ int ++ frac ++ exp)), s4)
  else unexpected.

Definition keyword (k : string) (v : value) (s : string)
  : result (value * string) :=
  match strip_prefix k s with
  | Some rest => inr (v, rest)
  | None => unexpected
  end.

(** One JSON value at the head of [s], and what follows it; the elements
    of an array after its opening bracket; the members of an object after
    its opening brace.  [fuel] bounds the number of values read. *)
Fixpoint read_value (fuel : nat) (s : string) : result (value * string) :=
  match fuel with
  | O => unexpected
  | S fuel' =>
      match skip_space s with
      | "" => inl (SyntaxError "Unexpected end of JSON input")
      | String c s' as t =>
          if Ascii.eqb c "n" then keyword "null" JNull t
          else if Ascii.eqb c "t" then keyword "true" (JBoolean true) t
          else if Ascii.eqb c "f" then keyword "false" (JBoolean false) t
          else if Ascii.eqb c dquote then
            and_then (read_string s')
                     (fun p => inr (JString (fst p), snd p))
          else if Ascii.eqb c "[" then
            match skip_space s' with
            | String d rest =>
                if Ascii.eqb d "]" then inr (JArray ArrayPrototype [], rest)
                else read_elements fuel' s' []
            | "" => read_elements fuel' s' []
            end
          else if Ascii.eqb c "{" then
            match skip_space s' with
            | String d rest =>
                if Ascii.eqb d "}" then inr (JObject ObjectPrototype [], rest)
                else read_members fuel' s' []
            | "" => read_members fuel' s' []
            end
          else if Ascii.eqb c "-" || is_digit c then read_number t
          else unexpected
      end
  end
with read_elements (fuel : nat) (s : string) (acc : list value)
  : result (value * string) :=
  match fuel with
  | O => unexpected
  | S fuel' =>
      match read_value fuel' s with
      | inl e => inl e
      | inr (v, rest) =>
          match skip_space rest with
          | String d rest' =>
              if Ascii.eqb d "," then read_elements fuel' rest' (acc ++ [v])
              else if Ascii.eqb d "]"
                   then inr (JArray ArrayPrototype (acc ++ [v]), rest')
                   else unexpected
          | "" => unexpected
          end
      end
  end
with read_members (fuel : nat) (s : string) (acc : list (string * value))
  : result (value * string) :=
  match fuel with
  | O => unexpected
  | S fuel' =>
      match skip_space s with
      | String q s' =>
          if Ascii.eqb q dquote then
            match read_string s' with
            | inl e => inl e
            | inr (key, rest) =>
                match skip_space rest with
                | String d rest' =>
                    if Ascii.eqb d ":" then
                      match read_value fuel' rest' with
                      | inl e => inl e
                      | inr (v, rest'') =>
                          match skip_space rest'' with
                          | String g r =>
                              if Ascii.eqb g ","
                              then read_members fuel' r (assign key v acc)
                              else if Ascii.eqb g "}"
                                   then inr (JObject ObjectPrototype
                                                     (assign key v acc), r)
                                   else unexpected
                          | "" => unexpected
                          end
                      end
                    else unexpected
                | "" => unexpected
                end
            end
          else unexpected
      | "" => inl (SyntaxError "Unexpected end of JSON input")
      end
  end.

(** [JSON.parse(s)] *)
Definition read (s : string) : result value :=
  match read_value (S (String.length s)) s with
  | inl e => inl e
  | inr (v, rest) =>
      match skip_space rest with
      | "" => inr v
      | _ => unexpected
      end
  end.

(** The text of [v] inside an array. *)
Definition printed (v : value) : string :=
  match print v with
  | Some t => t
  | None => "null"
  end.

(** The text of a member of an object whose value is not [undefined]. *)
Definition member_text (kv : string * value) : string :=
  quote (fst kv) ++ ":" ++ printed (snd kv).

(** A number that JSON holds: it is finite, and its decimal text is a JSON
    number that the runtime converts back to it. *)
Definition number_ok (n : float) : Prop :=
  is_finite n = true
  /\ read_number (NumberToString n) = inr (JNumber n, "").

(** Plain JSON data: [null], booleans, strings, the numbers above, arrays
    and objects of plain JSON data that have the prototypes [JSON.parse]
    gives, the keys of an object in the order the runtime enumerates
    them. *)
#[warnings="-register-all"]
Inductive json_data : value -> Prop :=
  | data_null : json_data JNull
  | data_boolean (b : bool) : json_data (JBoolean b)
  | data_number (n : float) : number_ok n -> json_data (JNumber n)
  | data_string (s : string) : json_data (JString s)
  | data_array (elements : list value) :
      Forall json_data elements ->
      json_data (JArray ArrayPrototype elements)
  | data_object (properties : list (string * value)) :
      enumerated [] (map fst properties) = true ->
      Forall (fun kv => json_data (snd kv)) properties ->
      json_data (JObject ObjectPrototype properties).

End Codec.

(** Decimal conversions for the examples, which hold no other numbers than
    integers of magnitude at most 2^53: on these and on their decimal texts
    the runtime's conversions give the same. *)
Definition integer_of (n : float) : option Z :=
  match Prim2SF n with
  | SpecFloat.S754_zero _ => Some 0
  | SpecFloat.S754_finite s m e =>
      let z :=
        if 0 <=? e then Some (Z.pos m * 2 ^ e)
        else if Z.pos m mod 2 ^ (- e) =? 0 then Some (Z.pos m / 2 ^ (- e))
        else None in
      match z with
      | Some z => if z <=? 2 ^ 53 then Some (if s then - z else z) else None
      | None => None
      end
  | _ => None
  end.

Definition integer_text (n : float) : string :=
  match integer_of n with
  | Some z => NilZero.string_of_int (Z.to_int z)
  | None => "NaN"
  end.

Definition integer_value (s : string) : float :=
  let magnitude (d : string) : float :=
    match option_map Z.of_uint (NilZero.uint_of_string d) with
    | Some z =>
        if z <=? 2 ^ 53 then PrimFloat.of_uint63 (Uint63.of_Z z) else nan
    | None => nan
    end in
  match s with
  | String "-" d => (- magnitude d)%float
  | _ => magnitude s
  end.

(** ** Auxiliary definitions of the proofs *)

(** What a part method does to [this] once [checkRules] has returned. *)
Definition store (k : category) (v : string) (this : CssSelector.t)
  : CssSelector.t :=
  let this := CssSelector.set_rank (stageIndex k) this in
  match k with
  | ElementPart => CssSelector.set_elementItem (Some v) this
  | IdPart => CssSelector.set_idItem (Some v) this
  | ClassPart => CssSelector.push_classItems v this
  | AttributePart => CssSelector.push_attrItems v this
  | PseudoClassPart => CssSelector.push_pseudoClassItems v this
  | PseudoElementPart => CssSelector.set_pseudoElementItem (Some v) this
  end.

(** The array of a multi-valued category. *)
Definition multi_items (k : category) (s : CssSelector.t) : list string :=
  match k with
  | ClassPart => CssSelector.classItems s
  | AttributePart => CssSelector.attrItems s
  | PseudoClassPart => CssSelector.pseudoClassItems s
  | _ => []
  end.

(** The fields of a selector, written in category order. *)
Definition written (s : CssSelector.t) : string :=
  render_nonempty ElementPart (CssSelector.elementItem s)
  ++ render_nonempty IdPart (CssSelector.idItem s)
  ++ render_all ClassPart (CssSelector.classItems s)
  ++ render_all AttributePart (CssSelector.attrItems s)
  ++ render_all PseudoClassPart (CssSelector.pseudoClassItems s)
  ++ render_nonempty PseudoElementPart (CssSelector.pseudoElementItem s).

(** What one more part adds to the output. *)
Definition added (k : category) (v : string) : string :=
  if singleton k && String.eqb v "" then "" else render k v.

(** The rank that stands for a last category. *)
Definition rank_of (o : option category) : Z :=
  match o with
  | None => 0
  | Some k => stageIndex k
  end.

(** The invariant of the states of a selector: the repeatable stages are
    3, 4 and 5, and the fields of the stages after [rank] are still as
    [new CssSelector()] left them. *)
Record invariant (s : CssSelector.t) : Prop := {
  inv_multiple : CssSelector.multipleDataItem s = [3; 4; 5];
  inv_rank : 0 <= CssSelector.rank s <= 6;
  inv_element : CssSelector.rank s < 1 -> CssSelector.elementItem s = None;
  inv_id : CssSelector.rank s < 2 -> CssSelector.idItem s = None;
  inv_class : CssSelector.rank s < 3 -> CssSelector.classItems s = [];
  inv_attr : CssSelector.rank s < 4 -> CssSelector.attrItems s = [];
  inv_pseudoClass :
    CssSelector.rank s < 5 -> CssSelector.pseudoClassItems s = [];
  inv_pseudoElement :
    CssSelector.rank s < 6 -> CssSelector.pseudoElementItem s = None
}.

(** The value of [rank] after each of the calls [cs], made one after the
    other on [this] by a caller that catches the exceptions. *)
Fixpoint rank_trace (cs : list call) (this : CssSelector.t) : list Z :=
  match cs with
  | [] => []
  | c :: cs' =>
      let this' := fst (invoke c this) in
      CssSelector.rank this' :: rank_trace cs' this'
  end.

(** [k2] may be called right after [k1]: it is strictly later, or it is
    the same multi-valued category. *)
Definition follows (k1 k2 : category) : Prop :=
  earlier k1 k2 \/ (k1 = k2 /\ multi_valued k1 = true).

(** What a call adds to the output of [stringify]. *)
Definition call_text (c : call) : string := added (fst c) (snd c).

(** The selectors and the combinators of a selector-like object, from left
    to right. *)
Fixpoint tokens (x : selector) : list (CssSelector.t + string) :=
  match x with
  | Selector s => [inl s]
  | Combinator selector1 combinator selector2 =>
      tokens selector1 ++ inr combinator :: tokens selector2
  end.

(** A selector is written as [stringify] writes it, a combinator between
    two spaces. *)
Definition token_text (t : CssSelector.t + string) : string :=
  match t with
  | inl s => written s
  | inr combinator => " " ++ combinator ++ " "
  end.

(** The fuel that reading the text of [v] takes. *)
Fixpoint need (v : value) : nat :=
  match v with
  | JArray _ elements =>
      S ((fix go (l : list value) : nat :=
            match l with
            | [] => O
            | e :: l' => S (Nat.max (need e) (go l'))
            end) elements)
  | JObject _ properties =>
      S ((fix go (l : list (string * value)) : nat :=
            match l with
            | [] => O
            | (_, x) :: l' => S (Nat.max (need x) (go l'))
            end) properties)
  | _ => 1%nat
  end.

(** What can follow a value in a JSON text: nothing, [,], []] or [}]. *)
Definition delimited (rest : string) : Prop :=
  rest = ""
  \/ exists r, rest = String "," r \/ rest = String "]" r
               \/ rest = String "}" r.

Definition need_elements (l : list value) : nat :=
  (fix go (l : list value) : nat :=
     match l with
     | [] => O
     | e :: l' => S (Nat.max (need e) (go l'))
     end) l.

Definition need_members (l : list (string * value)) : nat :=
  (fix go (l : list (string * value)) : nat :=
     match l with
     | [] => O
     | (_, x) :: l' => S (Nat.max (need x) (go l'))
     end) l.

(** The characters a JSON value can start with. *)
Definition value_start (c : ascii) : bool :=
  (Ascii.eqb c "-" || is_digit c)
  || Ascii.eqb c "n" || Ascii.eqb c "t" || Ascii.eqb c "f"
  || Ascii.eqb c dquote || Ascii.eqb c "[" || Ascii.eqb c "{".

(** Induction on a value and on the values inside it. *)
Section ValueInduction.

Variable P : value -> Prop.
Hypothesis Hundefined : P JUndefined.
Hypothesis Hnull : P JNull.
Hypothesis Hboolean : forall b, P (JBoolean b).
Hypothesis Hnumber : forall n, P (JNumber n).
Hypothesis Hstring : forall s, P (JString s).
Hypothesis Harray :
  forall p elements, Forall P elements -> P (JArray p elements).
Hypothesis Hobject :
  forall p properties,
    Forall (fun kv => P (snd kv)) properties -> P (JObject p properties).

Fixpoint value_induction (v : value) : P v :=
  match v with
  | JUndefined => Hundefined
  | JNull => Hnull
  | JBoolean b => Hboolean b
  | JNumber n => Hnumber n
  | JString s => Hstring s
  | JArray p elements =>
      Harray p elements
        ((fix go (l : list value) : Forall P l :=
            match l with
            | [] => Forall_nil P
            | e :: l' => Forall_cons e (value_induction e) (go l')
            end) elements)
  | JObject p properties =>
      Hobject p properties
        ((fix go (l : list (string * value))
            : Forall (fun kv => P (snd kv)) l :=
            match l with
            | [] => Forall_nil _
            | kv :: l' =>
                Forall_cons kv (value_induction (snd kv)) (go l')
            end) properties)
  end.

End ValueInduction.

(** * Properties *)

(** ** Strings *)

Lemma append_nil_r (s : string) : (s ++ "")%string = s.
Proof. induction s as [|a s IH]; simpl; [reflexivity | now rewrite IH]. Qed.

Lemma append_assoc (a b c : string) :
  ((a ++ b) ++ c)%string = (a ++ (b ++ c))%string.
Proof. induction a as [|x a IH]; simpl; [reflexivity | now rewrite IH]. Qed.

Lemma concat_cons (x : string) (l : list string) :
  String.concat "" (x :: l) = (x ++ String.concat "" l)%string.
Proof.
  destruct l as [|y l]; simpl; [now rewrite append_nil_r | reflexivity].
Qed.

Lemma concat_app (l1 l2 : list string) :
  String.concat "" (l1 ++ l2)
  = (String.concat "" l1 ++ String.concat "" l2)%string.
Proof.
  induction l1 as [|x l1 IH]; [reflexivity|].
  rewrite <- app_comm_cons, !concat_cons, IH, append_assoc. reflexivity.
Qed.

Lemma render_all_app (k : category) (l1 l2 : list string) :
  render_all k (l1 ++ l2) = (render_all k l1 ++ render_all k l2)%string.
Proof. unfold render_all. now rewrite map_app, concat_app. Qed.

Lemma render_all_one (k : category) (v : string) :
  render_all k [v] = render k v.
Proof. reflexivity. Qed.

(** ** toString and stringify *)

Lemma reduce_concat (before after : string) (l : list string) (init : string) :
  reduce (fun prev curr => ((prev ++ before) ++ curr) ++ after)%string init l
  = (init ++ String.concat ""
               (map (fun curr => before ++ curr ++ after) l))%string.
Proof.
  unfold reduce. revert init.
  induction l as [|x l IH]; intros init; simpl fold_left.
  - simpl. now rewrite append_nil_r.
  - rewrite IH. simpl map. rewrite concat_cons, !append_assoc. reflexivity.
Qed.

Lemma toString_Null (before after : string) (s : CssSelector.t) :
  CssSelector.toString Null before after s = (s, inr "").
Proof. reflexivity. Qed.

Lemma toString_Str (v before after : string) (s : CssSelector.t) :
  CssSelector.toString (Str v) before after s
  = (s, inr (if String.eqb v "" then "" else before ++ v ++ after)%string).
Proof.
  unfold CssSelector.toString. cbv zeta. unfold truthy.
  destruct (String.eqb v ""); cbn; [reflexivity|].
  unfold ret. now rewrite append_assoc.
Qed.

Lemma toString_Arr (l : list string) (before after : string)
      (s : CssSelector.t) :
  CssSelector.toString (Arr l) before after s
  = (s, inr (String.concat "" (map (fun curr => before ++ curr ++ after) l))%string).
Proof.
  unfold CssSelector.toString. simpl. unfold ret.
  now rewrite reduce_concat.
Qed.

Lemma toString_returns (v : items) (before after : string)
      (s : CssSelector.t) :
  exists str, CssSelector.toString v before after s = (s, inr str).
Proof.
  destruct v as [|x|l].
  - eexists. apply toString_Null.
  - eexists. apply toString_Str.
  - eexists. apply toString_Arr.
Qed.

Lemma toString_nullable (k : category) (o : option string)
      (before : string) (s : CssSelector.t) :
  (forall v, render k v = before ++ v)%string ->
  CssSelector.toString (nullable o) before "" s
  = (s, inr (render_nonempty k o)).
Proof.
  intros Hk. destruct o as [v|]; simpl nullable.
  - rewrite toString_Str. simpl render_nonempty.
    destruct (String.eqb v ""); [reflexivity|].
    now rewrite Hk, append_nil_r.
  - apply toString_Null.
Qed.

Lemma toString_items (k : category) (l : list string)
      (before after : string) (s : CssSelector.t) :
  (forall v, render k v = before ++ v ++ after)%string ->
  CssSelector.toString (Arr l) before after s = (s, inr (render_all k l)).
Proof.
  intros Hk. rewrite toString_Arr. unfold render_all.
  do 3 f_equal. apply map_ext. intros v. now rewrite Hk.
Qed.

Lemma stringify_written (s : CssSelector.t) :
  CssSelector.stringify s = (s, inr (written s)).
Proof.
  unfold CssSelector.stringify, bind, get. cbv beta iota.
  rewrite (toString_nullable ElementPart) by reflexivity. cbv beta iota.
  rewrite (toString_nullable IdPart) by reflexivity. cbv beta iota.
  rewrite (toString_items ClassPart)
    by (intros v; simpl; now rewrite append_nil_r).
  cbv beta iota.
  rewrite (toString_items AttributePart) by reflexivity. cbv beta iota.
  rewrite (toString_items PseudoClassPart)
    by (intros v; simpl; now rewrite append_nil_r).
  cbv beta iota.
  rewrite (toString_nullable PseudoElementPart) by reflexivity.
  cbv beta iota.
  unfold ret, written. now rewrite !append_assoc.
Qed.

(** ** One call *)

Lemma invoke_eq (k : category) (v : string) (s : CssSelector.t) :
  invoke (k, v) s
  = if (CssSelector.rank s =? stageIndex k)
       && (indexOf (CssSelector.multipleDataItem s) (stageIndex k) =? -1)
    then (s, inl (Error CssSelector.duplicate_message))
    else if stageIndex k <? CssSelector.rank s
         then (s, inl (Error CssSelector.order_message))
         else (store k v s, inr tt).
Proof.
  destruct k;
    unfold invoke, fst, snd, CssSelector.element, CssSelector.id,
      CssSelector.class, CssSelector.attr, CssSelector.pseudoClass,
      CssSelector.pseudoElement, CssSelector.checkRules, bind, get, throw_if,
      ret, throw, modify;
    cbv beta iota; unfold stageIndex;
    (destruct (_ && _); [reflexivity|]);
    cbv beta iota;
    (destruct (_ <? _); reflexivity).
Qed.

Lemma repeatable_stage (k : category) :
  (indexOf [3; 4; 5] (stageIndex k) =? -1) = singleton k.
Proof. destruct k; reflexivity. Qed.

Lemma invoke_invariant (k : category) (v : string) (s : CssSelector.t) :
  invariant s ->
  invoke (k, v) s
  = if (CssSelector.rank s =? stageIndex k) && singleton k
    then (s, inl (Error CssSelector.duplicate_message))
    else if stageIndex k <? CssSelector.rank s
         then (s, inl (Error CssSelector.order_message))
         else (store k v s, inr tt).
Proof.
  intros H. now rewrite invoke_eq, (inv_multiple s H), repeatable_stage.
Qed.

(** A call that throws leaves the selector as it was. *)
Lemma invoke_throws (c : call) (s s' : CssSelector.t) (e : exn) :
  invoke c s = (s', inl e) -> s' = s.
Proof.
  destruct c as [k v]. rewrite invoke_eq.
  destruct (_ && _); [congruence|].
  destruct (_ <? _); congruence.
Qed.

(** A call that returns has stored its part. *)
Lemma invoke_returns (k : category) (v : string) (s s' : CssSelector.t) :
  invariant s ->
  invoke (k, v) s = (s', inr tt) ->
  s' = store k v s
  /\ CssSelector.rank s <= stageIndex k
  /\ (CssSelector.rank s = stageIndex k -> multi_valued k = true).
Proof.
  intros H. rewrite invoke_invariant by assumption.
  destruct (CssSelector.rank s =? stageIndex k) eqn:E1;
    destruct (singleton k) eqn:E2; simpl andb; cbv iota; try congruence;
    destruct (stageIndex k <? CssSelector.rank s) eqn:E3; try congruence;
    intros [= <-]; repeat split; try lia;
    try (intros _; destruct k; simpl in *; congruence).
Qed.

Lemma rank_store (k : category) (v : string) (s : CssSelector.t) :
  CssSelector.rank (store k v s) = stageIndex k.
Proof. destruct k; reflexivity. Qed.

Lemma new_invariant : invariant CssSelector.new.
Proof. constructor; simpl; intros; try reflexivity; lia. Qed.

Lemma store_invariant (k : category) (v : string) (s : CssSelector.t) :
  invariant s ->
  CssSelector.rank s <= stageIndex k ->
  invariant (store k v s).
Proof.
  intros [Hm Hr He Hi Hc Ha Hp Hq] Hle.
  destruct k; constructor; simpl in *; intros;
    try assumption; try lia;
    first [ apply He | apply Hi | apply Hc | apply Ha | apply Hp | apply Hq ];
    lia.
Qed.

Lemma invoke_preserves (c : call) (s : CssSelector.t) :
  invariant s -> invariant (fst (invoke c s)).
Proof.
  intros H. destruct c as [k v].
  destruct (invoke (k, v) s) as [s' [e|[]]] eqn:E; simpl.
  - apply invoke_throws in E. now subst.
  - apply invoke_returns in E as (-> & Hle & _); [|assumption].
    now apply store_invariant.
Qed.

Lemma after_preserves (cs : list call) (s : CssSelector.t) :
  invariant s -> invariant (after cs s).
Proof.
  revert s. induction cs as [|c cs IH]; intros s H; simpl; [assumption|].
  apply IH. now apply invoke_preserves.
Qed.

Lemma reachable_invariant (s : CssSelector.t) :
  reachable s -> invariant s.
Proof. intros [cs ->]. apply after_preserves, new_invariant. Qed.

(** What a stored part adds to the output of [stringify]. *)
Lemma written_store (k : category) (v : string) (s : CssSelector.t) :
  invariant s ->
  CssSelector.rank s <= stageIndex k ->
  (CssSelector.rank s = stageIndex k -> multi_valued k = true) ->
  written (store k v s) = (written s ++ added k v)%string.
Proof.
  intros [Hm Hr He Hi Hc Ha Hp Hq] Hle Hmulti.
  assert (Hlt : singleton k = true -> CssSelector.rank s < stageIndex k).
  { intros Hs. destruct (Z.eq_dec (CssSelector.rank s) (stageIndex k)) as [E|E];
      [|lia].
    apply Hmulti in E. destruct k; discriminate. }
  unfold written, added.
  destruct k; simpl in *;
    try rewrite He by lia; try rewrite Hi by lia; try rewrite Hc by lia;
    try rewrite Ha by lia; try rewrite Hp by lia; try rewrite Hq by lia;
    simpl;
    rewrite ?render_all_app, ?render_all_one, ?append_nil_r, ?append_assoc;
    simpl; rewrite ?append_nil_r; try reflexivity.
Qed.

(** ** Sequences of calls *)

Lemma stageIndex_inj (k1 k2 : category) :
  stageIndex k1 = stageIndex k2 -> k1 = k2.
Proof. destruct k1, k2; simpl; intros H; try reflexivity; discriminate. Qed.

Lemma stageIndex_range (k : category) : 1 <= stageIndex k <= 6.
Proof. destruct k; simpl; lia. Qed.

Lemma earlier_stageIndex (k1 k2 : category) :
  earlier k1 k2 <-> stageIndex k1 < stageIndex k2.
Proof. destruct k1, k2; unfold earlier; simpl; split; intros; lia. Qed.

Lemma singleton_multi_valued (k : category) :
  singleton k = negb (multi_valued k).
Proof. destruct k; reflexivity. Qed.

Lemma lastCategory_snoc (done : list call) (c : call) :
  lastCategory (done ++ [c]) = Some (fst c).
Proof. unfold lastCategory. now rewrite rev_unit. Qed.

Lemma lastCategory_In (done : list call) (k : category) :
  lastCategory done = Some k -> In k (map fst done).
Proof.
  unfold lastCategory. intros H.
  destruct (rev done) as [|c l] eqn:E; [discriminate|].
  injection H as <-. apply in_map. apply (proj2 (in_rev done c)).
  rewrite E. now left.
Qed.

(** [rank] is the stage of the last call that returned, and no call that
    returned had a later stage. *)
Lemma rank_history (cs : list call) :
  forall (s : CssSelector.t) (done : list call),
    invariant s ->
    CssSelector.rank s = rank_of (lastCategory done) ->
    (forall k, In k (map fst done) -> stageIndex k <= CssSelector.rank s) ->
    CssSelector.rank (after cs s)
    = rank_of (lastCategory (done ++ recorded cs s))
    /\ (forall k, In k (map fst (done ++ recorded cs s)) ->
                  stageIndex k <= CssSelector.rank (after cs s)).
Proof.
  induction cs as [|[k v] cs IH]; intros s done Hinv Hrank Hle; simpl.
  - rewrite app_nil_r. now split.
  - destruct (invoke (k, v) s) as [s' [e|[]]] eqn:E;
      unfold returned; simpl.
    + apply invoke_throws in E. subst s'. now apply IH.
    + apply invoke_returns in E as (-> & Hk & _); [|assumption].
      change (done ++ (k, v) :: recorded cs (store k v s))%list
        with (done ++ [(k, v)] ++ recorded cs (store k v s))%list.
      rewrite app_assoc.
      apply IH.
      * now apply store_invariant.
      * now rewrite rank_store, lastCategory_snoc.
      * intros k'. rewrite rank_store, map_app, in_app_iff. simpl.
        intros [H|[<-|[]]]; [|lia]. apply Hle in H. lia.
Qed.

Lemma rank_recorded (cs : list call) :
  let s := after cs CssSelector.new in
  let done := recorded cs CssSelector.new in
  CssSelector.rank s = rank_of (lastCategory done)
  /\ (forall k, In k (map fst done) -> stageIndex k <= CssSelector.rank s).
Proof.
  apply (rank_history cs CssSelector.new []).
  - apply new_invariant.
  - reflexivity.
  - intros k [].
Qed.

(** A chain that returned is a sequence of calls that all returned. *)
Lemma chain_after (cs : list call) :
  forall s s', chain cs s = (s', inr tt) ->
               s' = after cs s /\ recorded cs s = cs.
Proof.
  induction cs as [|c cs IH]; intros s s' H; simpl in *.
  - unfold ret in H. injection H as <-. now split.
  - unfold bind in H.
    destruct (invoke c s) as [s1 [e|[]]] eqn:E; [discriminate|].
    unfold returned. simpl.
    apply IH in H as [-> ->]. now split.
Qed.

Lemma values_of_cons (k : category) (c : call) (cs : list call) :
  values_of k (c :: cs)
  = if category_eqb (fst c) k then snd c :: values_of k cs
    else values_of k cs.
Proof. unfold values_of. simpl. now destruct (category_eqb (fst c) k). Qed.

Lemma value_of_cons (k : category) (c : call) (cs : list call) :
  value_of k (c :: cs)
  = match value_of k cs with
    | Some v => Some v
    | None => if category_eqb (fst c) k then Some (snd c) else None
    end.
Proof.
  unfold value_of. rewrite values_of_cons.
  destruct (category_eqb (fst c) k);
    simpl rev; destruct (rev (values_of k cs)); reflexivity.
Qed.

Lemma category_eqb_eq (a b : category) : category_eqb a b = true <-> a = b.
Proof. destruct a, b; simpl; split; intros H; congruence. Qed.

(** The fields after a chain of calls that returned, from the calls. *)
Lemma fields_after_chain (cs : list call) :
  forall s s',
    chain cs s = (s', inr tt) ->
    let keep (k : category) (o : option string) :=
      match value_of k cs with Some v => Some v | None => o end in
    CssSelector.elementItem s' = keep ElementPart (CssSelector.elementItem s)
    /\ CssSelector.idItem s' = keep IdPart (CssSelector.idItem s)
    /\ CssSelector.classItems s'
       = (CssSelector.classItems s ++ values_of ClassPart cs)%list
    /\ CssSelector.attrItems s'
       = (CssSelector.attrItems s ++ values_of AttributePart cs)%list
    /\ CssSelector.pseudoClassItems s'
       = (CssSelector.pseudoClassItems s ++ values_of PseudoClassPart cs)%list
    /\ CssSelector.pseudoElementItem s'
       = keep PseudoElementPart (CssSelector.pseudoElementItem s).
Proof.
  induction cs as [|[k v] cs IH]; intros s s' H; cbv zeta.
  - unfold chain, ret in H. injection H as <-.
    unfold value_of, values_of. simpl. now rewrite !app_nil_r.
  - simpl chain in H. unfold bind in H.
    destruct (invoke (k, v) s) as [s1 [e|[]]] eqn:E; [discriminate|].
    rewrite invoke_eq in E.
    destruct (_ && _); [discriminate|].
    destruct (_ <? _); [discriminate|].
    injection E as <-.
    apply IH in H. cbv zeta in H.
    destruct H as (He & Hi & Hc & Ha & Hp & Hq).
    rewrite He, Hi, Hc, Ha, Hp, Hq.
    rewrite !value_of_cons, !values_of_cons.
    destruct k; simpl; rewrite <- ?app_assoc; simpl;
      repeat split; try reflexivity;
      match goal with
      | |- context [value_of ?k cs] => now destruct (value_of k cs)
      end.
Qed.

Lemma render_nonempty_element (o : option string) :
  render_nonempty ElementPart o = render_present ElementPart o.
Proof.
  destruct o as [v|]; simpl; [|reflexivity].
  destruct (String.eqb_spec v ""); [now subst | reflexivity].
Qed.

Lemma written_after_chain (cs : list call) (s : CssSelector.t) :
  chain cs CssSelector.new = (s, inr tt) ->
  written s = stringify_spec_nonempty cs.
Proof.
  intros H. apply fields_after_chain in H. cbv zeta in H.
  destruct H as (He & Hi & Hc & Ha & Hp & Hq).
  unfold written, stringify_spec_nonempty.
  rewrite He, Hi, Hc, Ha, Hp, Hq. simpl.
  rewrite render_nonempty_element.
  repeat f_equal;
    match goal with
    | |- context [value_of ?k cs] => now destruct (value_of k cs)
    end.
Qed.

(** A call that returns appends its part to the output. *)
Lemma written_invoke (k : category) (v : string) (s s' : CssSelector.t) :
  invariant s ->
  invoke (k, v) s = (s', inr tt) ->
  written s' = (written s ++ added k v)%string.
Proof.
  intros H E. apply invoke_returns in E as (-> & Hle & Hm); [|assumption].
  now apply written_store.
Qed.

(** ** Combined selectors *)

Lemma combinator_stringify_returns (x : selector) :
  exists str, CssSelectorCombinator.stringify x = (x, inr str).
Proof.
  induction x as [s|a [ta IHa] c b [tb IHb]]; simpl.
  - rewrite stringify_written. simpl. now eexists.
  - rewrite IHa, IHb. now eexists.
Qed.

Lemma combinator_stringify_combine (a b : selector) (c ta tb : string) :
  CssSelectorCombinator.stringify a = (a, inr ta) ->
  CssSelectorCombinator.stringify b = (b, inr tb) ->
  CssSelectorCombinator.stringify (cssSelectorBuilder.combine a c b)
  = (cssSelectorBuilder.combine a c b,
     inr (ta ++ " " ++ c ++ " " ++ tb)%string).
Proof.
  intros Ha Hb. simpl. rewrite Ha, Hb. now rewrite !append_assoc.
Qed.

(** * The selector builder *)

(** C1 (as amended): after any chain of part calls that all returned on a
    new selector, [stringify] returns the parts in the fixed category order,
    whatever the values: the element verbatim, "#" and the id when an id is
    present and not empty, "." and each class in call order, each attribute
    in brackets, ":" and each pseudo-class, "::" and the pseudo-element when
    one is present and not empty; nothing else is written. *)
Theorem stringify_fixed_order (cs : list call) (s : CssSelector.t) :
  chain cs CssSelector.new = (s, inr tt) ->
  CssSelector.stringify s = (s, inr (stringify_spec_nonempty cs)).
Proof.
  intros H. rewrite stringify_written. now rewrite (written_after_chain cs).
Qed.

Lemma stringify_fixed_order_witness :
  exists s,
    chain [(IdPart, "main"); (ClassPart, "container"); (ClassPart, "editable")]
          CssSelector.new = (s, inr tt)
    /\ CssSelector.stringify s = (s, inr "#main.container.editable").
Proof.
  eexists. split.
  - reflexivity.
  - apply (stringify_fixed_order
             [(IdPart, "main"); (ClassPart, "container");
              (ClassPart, "editable")]).
    reflexivity.
Defined.

(** C1 as the specification words it fails: an id that is present but
    empty is not written as "#". *)
Lemma stringify_present_counterexample :
  exists (cs : list call) (s : CssSelector.t),
    cs = [(IdPart, "")]
    /\ chain cs CssSelector.new = (s, inr tt)
    /\ stringify_spec cs = "#"
    /\ CssSelector.stringify s = (s, inr "")
    /\ CssSelector.stringify s <> (s, inr (stringify_spec cs)).
Proof.
  eexists. eexists. split; [reflexivity|].
  split; [reflexivity|]. split; [reflexivity|]. split; [reflexivity|].
  discriminate.
Qed.

(** The two readings differ on nothing else: without an empty id and an
    empty pseudo-element the output is the one the specification words. *)
Lemma stringify_spec_agree (cs : list call) :
  value_of IdPart cs <> Some "" ->
  value_of PseudoElementPart cs <> Some "" ->
  stringify_spec_nonempty cs = stringify_spec cs.
Proof.
  intros Hi Hq. unfold stringify_spec_nonempty, stringify_spec.
  assert (H : forall k o, o <> Some "" ->
                          render_nonempty k o = render_present k o).
  { intros k [v|] Hv; simpl; [|reflexivity].
    destruct (String.eqb_spec v ""); [subst; congruence | reflexivity]. }
  now rewrite (H IdPart), (H PseudoElementPart).
Qed.

(** C2: on a selector that has received the calls [cs], a part call throws
    the [Error] of [checkRules] exactly when its category is a singleton
    that a call which returned has already set, or is strictly earlier than
    the category recorded last; in every other case it returns, having
    stored its part. *)
Theorem part_call_throws_iff (cs : list call) (c : call) :
  let s := after cs CssSelector.new in
  let done := recorded cs CssSelector.new in
  let duplicate := singleton (fst c) = true /\ In (fst c) (map fst done) in
  let misplaced :=
    exists k, lastCategory done = Some k /\ earlier (fst c) k in
  ((exists message, invoke c s = (s, inl (Error message)))
   <-> duplicate \/ misplaced)
  /\ ((exists e, snd (invoke c s) = inl e) <-> duplicate \/ misplaced)
  /\ (~ (duplicate \/ misplaced) ->
      invoke c s = (store (fst c) (snd c) s, inr tt)).
Proof.
  intros s done duplicate misplaced.
  destruct (rank_recorded cs) as [Hrank Hle].
  fold s done in Hrank, Hle.
  assert (Hinv : invariant s) by apply after_preserves, new_invariant.
  destruct c as [k v]. simpl fst in *. simpl snd.
  assert (Hcond : duplicate \/ misplaced
                  <-> (CssSelector.rank s =? stageIndex k) && singleton k = true
                      \/ (stageIndex k <? CssSelector.rank s) = true).
  { unfold duplicate, misplaced.
    rewrite andb_true_iff, Z.eqb_eq, Z.ltb_lt. split.
    - intros [[Hs Hin]|[k' [Hlast Hk']]].
      + apply Hle in Hin.
        destruct (Z.eq_dec (CssSelector.rank s) (stageIndex k));
          [left; now split | right; lia].
      + right. rewrite Hrank, Hlast. simpl.
        now apply earlier_stageIndex.
    - intros [[Heq Hs]|Hlt].
      + left. split; [assumption|].
        destruct (lastCategory done) as [k'|] eqn:Hlast; simpl in Hrank.
        * assert (k' = k) by (apply stageIndex_inj; lia). subst k'.
          now apply lastCategory_In.
        * pose proof (stageIndex_range k). lia.
      + right. destruct (lastCategory done) as [k'|] eqn:Hlast;
          simpl in Hrank.
        * exists k'. split; [reflexivity|].
          apply earlier_stageIndex. lia.
        * pose proof (stageIndex_range k). lia. }
  rewrite (invoke_invariant k v s Hinv).
  destruct ((CssSelector.rank s =? stageIndex k) && singleton k) eqn:E1;
    [|destruct (stageIndex k <? CssSelector.rank s) eqn:E2]; simpl snd.
  - repeat split; intros; try tauto; try (now eexists).
  - repeat split; intros; try tauto; try (now eexists).
  - repeat split.
    + intros [m Hm]. discriminate.
    + intros H. apply Hcond in H as [H|H]; discriminate.
    + intros [e He]. discriminate.
    + intros H. apply Hcond in H as [H|H]; discriminate.
Qed.

Lemma part_call_throws_iff_witness :
  (exists message,
      invoke (ElementPart, "b") (after [(ElementPart, "a")] CssSelector.new)
      = (after [(ElementPart, "a")] CssSelector.new, inl (Error message)))
  /\ (exists message,
         invoke (IdPart, "x") (after [(ClassPart, "y")] CssSelector.new)
         = (after [(ClassPart, "y")] CssSelector.new, inl (Error message)))
  /\ invoke (ClassPart, "x") (after [(IdPart, "a")] CssSelector.new)
     = (store ClassPart "x" (after [(IdPart, "a")] CssSelector.new), inr tt).
Proof.
  split; [|split].
  - apply (proj1 (part_call_throws_iff [(ElementPart, "a")]
                                        (ElementPart, "b"))).
    left. split; [reflexivity | now left].
  - apply (proj1 (part_call_throws_iff [(ClassPart, "y")] (IdPart, "x"))).
    right. exists ClassPart. split; [reflexivity|].
    unfold earlier. simpl. lia.
  - apply (proj2 (proj2 (part_call_throws_iff [(IdPart, "a")]
                                               (ClassPart, "x")))).
    intros [[H _]|[k [H1 H2]]]; [discriminate|].
    injection H1 as <-. unfold earlier in H2. simpl in H2. lia.
Defined.

(** C3: [combine(s1, c, s2).stringify()] is [s1.stringify() + " " + c +
    " " + s2.stringify()] for any selector-like [s1], [s2] and any string
    [c], and combined selectors nest: whichever operand holds the inner
    combination, the three parts come out left to right with one space on
    each side of each combinator. *)
Theorem combine_stringify (s1 s2 s3 : selector) (c c' : string) :
  exists t1 t2 t3 : string,
    CssSelectorCombinator.stringify s1 = (s1, inr t1)
    /\ CssSelectorCombinator.stringify s2 = (s2, inr t2)
    /\ CssSelectorCombinator.stringify s3 = (s3, inr t3)
    /\ CssSelectorCombinator.stringify (cssSelectorBuilder.combine s1 c s2)
       = (cssSelectorBuilder.combine s1 c s2,
          inr (t1 ++ " " ++ c ++ " " ++ t2)%string)
    /\ CssSelectorCombinator.stringify
         (cssSelectorBuilder.combine
            (cssSelectorBuilder.combine s1 c s2) c' s3)
       = (cssSelectorBuilder.combine
            (cssSelectorBuilder.combine s1 c s2) c' s3,
          inr (t1 ++ " " ++ c ++ " " ++ t2 ++ " " ++ c' ++ " " ++ t3)%string)
    /\ CssSelectorCombinator.stringify
         (cssSelectorBuilder.combine
            s1 c (cssSelectorBuilder.combine s2 c' s3))
       = (cssSelectorBuilder.combine
            s1 c (cssSelectorBuilder.combine s2 c' s3),
          inr (t1 ++ " " ++ c ++ " " ++ t2 ++ " " ++ c' ++ " " ++ t3)%string).
Proof.
  destruct (combinator_stringify_returns s1) as [t1 H1].
  destruct (combinator_stringify_returns s2) as [t2 H2].
  destruct (combinator_stringify_returns s3) as [t3 H3].
  exists t1, t2, t3.
  pose proof (combinator_stringify_combine s1 s2 c t1 t2 H1 H2) as H12.
  pose proof (combinator_stringify_combine s2 s3 c' t2 t3 H2 H3) as H23.
  repeat split; try assumption.
  - rewrite (combinator_stringify_combine _ _ c' _ _ H12 H3).
    now rewrite !append_assoc.
  - now rewrite (combinator_stringify_combine _ _ c _ _ H1 H23).
Qed.

(** C4: when the category recorded last on a selector is a multi-valued
    one, any number of further calls of that category all return, each
    appends its value to the array of the category whatever the value, and
    [stringify] then ends with those values in call order. *)
Theorem multi_valued_repeats
        (cs : list call) (k : category) (vs : list string) :
  multi_valued k = true ->
  lastCategory (recorded cs CssSelector.new) = Some k ->
  let s := after cs CssSelector.new in
  exists (s' : CssSelector.t) (str : string),
    chain (map (pair k) vs) s = (s', inr tt)
    /\ multi_items k s' = (multi_items k s ++ vs)%list
    /\ CssSelector.stringify s = (s, inr str)
    /\ CssSelector.stringify s' = (s', inr (str ++ render_all k vs)%string).
Proof.
  intros Hk Hlast s.
  assert (Hinv : invariant s) by apply after_preserves, new_invariant.
  assert (Hrank : CssSelector.rank s = stageIndex k).
  { destruct (rank_recorded cs) as [H _]. fold s in H.
    now rewrite H, Hlast. }
  clearbody s. clear Hlast cs.
  enough (H : exists s', chain (map (pair k) vs) s = (s', inr tt)
                         /\ multi_items k s' = (multi_items k s ++ vs)%list
                         /\ written s' = (written s ++ render_all k vs)%string).
  { destruct H as (s' & H1 & H2 & H3). exists s', (written s).
    rewrite !stringify_written, H3. auto. }
  revert s Hinv Hrank.
  induction vs as [|v vs IH]; intros s Hinv Hrank.
  - exists s. simpl. unfold render_all. simpl.
    now rewrite app_nil_r, append_nil_r.
  - assert (E : invoke (k, v) s = (store k v s, inr tt)).
    { rewrite invoke_invariant by assumption.
      rewrite singleton_multi_valued, Hk, andb_false_r.
      now rewrite Hrank, Z.ltb_irrefl. }
    destruct (IH (store k v s)) as (s' & H1 & H2 & H3).
    + apply store_invariant; [assumption | lia].
    + apply rank_store.
    + exists s'. simpl chain. unfold bind. rewrite E.
      split; [assumption|]. split.
      * rewrite H2. destruct k; try discriminate; simpl;
          now rewrite <- app_assoc.
      * rewrite H3, (written_invoke k v s (store k v s) Hinv E).
        unfold added. rewrite singleton_multi_valued, Hk. simpl andb. cbv iota.
        change (v :: vs) with ([v] ++ vs)%list.
        now rewrite render_all_app, render_all_one, append_assoc.
Qed.

Lemma multi_valued_repeats_witness :
  exists (s' : CssSelector.t) (str : string),
    chain [(ClassPart, "b"); (ClassPart, "a"); (ClassPart, "b")]
          (after [(ElementPart, "div"); (ClassPart, "a")] CssSelector.new)
    = (s', inr tt)
    /\ CssSelector.classItems s' = ["a"; "b"; "a"; "b"]
    /\ str = "div.a"
    /\ CssSelector.stringify s' = (s', inr "div.a.b.a.b").
Proof.
  destruct (multi_valued_repeats
              [(ElementPart, "div"); (ClassPart, "a")] ClassPart
              ["b"; "a"; "b"] eq_refl eq_refl)
    as (s' & str & H1 & H2 & H3 & H4).
  exists s', str.
  rewrite stringify_written in H3. injection H3 as H3.
  rewrite <- H3 in H4.
  repeat split; [exact H1 | exact H2 | now symmetry | exact H4].
Defined.

(** C5: a part call that throws leaves every field of the selector,
    [rank] included, as it was, so every later call, chain of calls and
    [stringify] behaves as it would have without the failed call. *)
Theorem failed_call_changes_nothing
        (c : call) (s s' : CssSelector.t) (e : exn) :
  invoke c s = (s', inl e) ->
  s' = s
  /\ (forall c', invoke c' s' = invoke c' s)
  /\ (forall cs, chain cs s' = chain cs s)
  /\ CssSelector.stringify s' = CssSelector.stringify s.
Proof.
  intros H. apply invoke_throws in H. subst s'. repeat split.
Qed.

Lemma failed_call_changes_nothing_witness :
  exists (s s' : CssSelector.t) (e : exn),
    s = after [(IdPart, "a")] CssSelector.new
    /\ invoke (ElementPart, "div") s = (s', inl e)
    /\ s' = s
    /\ chain [(ClassPart, "x")] s' = chain [(ClassPart, "x")] s.
Proof.
  eexists. eexists. eexists.
  split; [reflexivity|]. split; [reflexivity|].
  destruct (failed_call_changes_nothing
              (ElementPart, "div") (after [(IdPart, "a")] CssSelector.new)
              _ _ eq_refl) as (H1 & _ & H3 & _).
  split; [exact H1 | exact (H3 [(ClassPart, "x")])].
Defined.

Lemma rank_invoke (c : call) (s : CssSelector.t) :
  invariant s ->
  CssSelector.rank s <= CssSelector.rank (fst (invoke c s)).
Proof.
  intros H. destruct c as [k v].
  destruct (invoke (k, v) s) as [s' [e|[]]] eqn:E; simpl.
  - apply invoke_throws in E. subst. lia.
  - apply invoke_returns in E as (-> & Hle & _); [|assumption].
    now rewrite rank_store.
Qed.

Lemma rank_trace_sorted (cs : list call) :
  forall s, invariant s ->
            StronglySorted Z.le (CssSelector.rank s :: rank_trace cs s).
Proof.
  induction cs as [|c cs IH]; intros s H; simpl.
  - constructor; constructor.
  - pose proof (rank_invoke c s H) as Hle.
    specialize (IH _ (invoke_preserves c s H)).
    constructor; [assumption|].
    constructor; [assumption|].
    apply StronglySorted_inv in IH as [_ Hall].
    eapply Forall_impl; [|exact Hall]. simpl. intros. lia.
Qed.

(** C6: [rank] starts at 0, below the stage of every category, and along
    any sequence of calls on a new selector it never decreases: a call that
    returns either moves it to a strictly later stage or leaves it at the
    stage of the multi-valued category recorded last, which the call
    repeats. *)
Theorem rank_never_decreases (cs : list call) :
  CssSelector.rank CssSelector.new = 0
  /\ (forall k, CssSelector.rank CssSelector.new < stageIndex k)
  /\ StronglySorted Z.le
       (CssSelector.rank CssSelector.new :: rank_trace cs CssSelector.new)
  /\ forall (c : call) (s' : CssSelector.t),
      let s := after cs CssSelector.new in
      invoke c s = (s', inr tt) ->
      CssSelector.rank s' = stageIndex (fst c)
      /\ (CssSelector.rank s < CssSelector.rank s'
          \/ (CssSelector.rank s' = CssSelector.rank s
              /\ multi_valued (fst c) = true
              /\ lastCategory (recorded cs CssSelector.new)
                 = Some (fst c))).
Proof.
  split; [reflexivity|].
  split; [intros k; pose proof (stageIndex_range k); simpl; lia|].
  split; [apply rank_trace_sorted, new_invariant|].
  intros [k v] s' s E. simpl fst.
  assert (Hinv : invariant s) by apply after_preserves, new_invariant.
  destruct (rank_recorded cs) as [Hrank _]. fold s in Hrank.
  apply invoke_returns in E as (-> & Hle & Hm); [|assumption].
  rewrite rank_store. split; [reflexivity|].
  destruct (Z.eq_dec (CssSelector.rank s) (stageIndex k)) as [E|E];
    [right | left; lia].
  split; [now symmetry|]. split; [now apply Hm|].
  destruct (lastCategory (recorded cs CssSelector.new)) as [k'|];
    simpl in Hrank.
  - f_equal. apply stageIndex_inj. lia.
  - pose proof (stageIndex_range k). lia.
Qed.

Lemma rank_never_decreases_witness :
  let s := after [(ClassPart, "a")] CssSelector.new in
  let s' := store ClassPart "b" s in
  CssSelector.rank s' = stageIndex ClassPart
  /\ (CssSelector.rank s < CssSelector.rank s'
      \/ (CssSelector.rank s' = CssSelector.rank s
          /\ multi_valued ClassPart = true
          /\ lastCategory (recorded [(ClassPart, "a")] CssSelector.new)
             = Some ClassPart)).
Proof.
  exact (proj2 (proj2 (proj2 (rank_never_decreases [(ClassPart, "a")])))
               (ClassPart, "b") _ eq_refl).
Defined.

(** C7: [stringify] of a selector returns a string and changes nothing,
    whatever the fields hold, and it returns "" on a new selector;
    [toString] never reaches [reduce] with anything but an array;
    [stringify] of any selector-like object returns a string, and so does
    [stringify] of what [combine] makes of any two selector-like objects and
    any combinator. *)
Theorem stringify_never_throws :
  (forall s : CssSelector.t,
      exists str, CssSelector.stringify s = (s, inr str))
  /\ CssSelector.stringify CssSelector.new = (CssSelector.new, inr "")
  /\ (forall (v : items) (before after : string) (s : CssSelector.t),
         exists str, CssSelector.toString v before after s = (s, inr str))
  /\ (forall x : selector,
         exists str, CssSelectorCombinator.stringify x = (x, inr str))
  /\ (forall (s1 s2 : selector) (c : string),
         exists str,
           CssSelectorCombinator.stringify (cssSelectorBuilder.combine s1 c s2)
           = (cssSelectorBuilder.combine s1 c s2, inr str)).
Proof.
  split; [intros s; eexists; apply stringify_written|].
  split; [reflexivity|].
  split; [apply toString_returns|].
  split; [apply combinator_stringify_returns|].
  intros s1 s2 c. apply combinator_stringify_returns.
Qed.

(** C8: a part call with the empty string that returns adds nothing to the
    output of [stringify] when its category is a singleton, not even "#" or
    "::", and adds the bare affixes of its category when it is multi-valued:
    "." for a class, "[]" for an attribute, ":" for a pseudo-class. *)
Theorem empty_string_parts
        (cs : list call) (k : category) (s' : CssSelector.t) :
  let s := after cs CssSelector.new in
  invoke (k, "") s = (s', inr tt) ->
  exists str,
    CssSelector.stringify s = (s, inr str)
    /\ CssSelector.stringify s'
       = (s', inr (str ++ match k with
                          | ElementPart | IdPart | PseudoElementPart => ""
                          | ClassPart => "."
                          | AttributePart => "[]"
                          | PseudoClassPart => ":"
                          end)%string).
Proof.
  intros s E. exists (written s).
  assert (Hinv : invariant s) by apply after_preserves, new_invariant.
  rewrite !stringify_written, (written_invoke k "" s s' Hinv E).
  split; [reflexivity|]. now destruct k.
Qed.

Lemma empty_string_parts_witness :
  exists s1 s2 s3 : CssSelector.t,
    invoke (IdPart, "") (after [(ElementPart, "a")] CssSelector.new)
    = (s1, inr tt)
    /\ CssSelector.stringify s1 = (s1, inr "a")
    /\ invoke (ClassPart, "") (after [(ElementPart, "a")] CssSelector.new)
       = (s2, inr tt)
    /\ CssSelector.stringify s2 = (s2, inr "a.")
    /\ invoke (PseudoElementPart, "")
              (after [(ElementPart, "a")] CssSelector.new)
       = (s3, inr tt)
    /\ CssSelector.stringify s3 = (s3, inr "a").
Proof.
  do 3 eexists.
  split; [reflexivity|]. split.
  { destruct (empty_string_parts [(ElementPart, "a")] IdPart _ eq_refl)
      as (str & H1 & H2).
    rewrite stringify_written in H1. injection H1 as <-. exact H2. }
  split; [reflexivity|]. split.
  { destruct (empty_string_parts [(ElementPart, "a")] ClassPart _ eq_refl)
      as (str & H1 & H2).
    rewrite stringify_written in H1. injection H1 as <-. exact H2. }
  split; [reflexivity|].
  destruct (empty_string_parts [(ElementPart, "a")] PseudoElementPart _ eq_refl)
    as (str & H1 & H2).
  rewrite stringify_written in H1. injection H1 as <-. exact H2.
Defined.

(** * Properties of Rectangle and the JSON helpers *)

(** ** Property lists *)

Lemma lookup_fresh (key : string) (l : list (string * value)) :
  existsb (String.eqb key) (map fst l) = false -> lookup key l = None.
Proof.
  induction l as [|[k x] l IH]; simpl; [reflexivity|].
  rewrite orb_false_iff. intros [H1 H2].
  rewrite String.eqb_sym, H1. now apply IH.
Qed.

Lemma insert_index_last (i : N) (key : string) (v : value)
      (l : list (string * value)) :
  forallb (fun k => match index_of k with
                    | Some j => (j <? i)%N
                    | None => false
                    end) (map fst l) = true ->
  insert_index i key v l = (l ++ [(key, v)])%list.
Proof.
  induction l as [|[k x] l IH]; simpl; [reflexivity|].
  rewrite andb_true_iff. intros [H1 H2].
  destruct (index_of k) as [j|]; [|discriminate].
  rewrite H1. now rewrite IH.
Qed.

(** A key that comes last is put last. *)
Lemma assign_last (key : string) (v : value) (l : list (string * value)) :
  comes_last (map fst l) key = true ->
  assign key v l = (l ++ [(key, v)])%list.
Proof.
  unfold comes_last, assign. rewrite andb_true_iff, negb_true_iff.
  intros [H1 H2]. rewrite (lookup_fresh _ _ H1).
  destruct (index_of key) as [i|]; [|reflexivity].
  now apply insert_index_last.
Qed.

(** ** Strings *)

Lemma length_append (a b : string) :
  String.length (a ++ b) = (String.length a + String.length b)%nat.
Proof. induction a as [|c a IH]; simpl; [reflexivity | now rewrite IH]. Qed.

Lemma read_string_escape_char (c : ascii) (t : string) :
  read_string (escape_char c ++ t)
  = and_then (read_string t) (fun p => inr (String c (fst p), snd p)).
Proof.
  destruct c as [[] [] [] [] [] [] [] []]; reflexivity.
Qed.

Lemma read_string_closing (rest : string) :
  read_string (String dquote rest) = inr ("", rest).
Proof. reflexivity. Qed.

(** The reader undoes the escapes of the printer. *)
Lemma read_string_escape (s rest : string) :
  read_string (escape s ++ String dquote rest) = inr (s, rest).
Proof.
  induction s as [|c s IH]; [reflexivity|].
  cbn [escape]. rewrite append_assoc, read_string_escape_char, IH.
  reflexivity.
Qed.

Lemma quote_append (s rest : string) :
  (quote s ++ rest)%string
  = String dquote (escape s ++ String dquote rest).
Proof. unfold quote. simpl. now rewrite append_assoc. Qed.

(** ** Numbers *)

Ltac delimiter_cases H :=
  destruct H as [->|[? [->|[->| ->]]]].

Lemma digits_app (s rest : string) :
  delimited rest ->
  digits (s ++ rest) = (fst (digits s), (snd (digits s) ++ rest)%string).
Proof.
  intros H. induction s as [|c s IH].
  - delimiter_cases H; reflexivity.
  - cbn [append digits]. destruct (is_digit c); [|reflexivity].
    rewrite IH. now destruct (digits s).
Qed.

Section Numbers.

Variable StringToNumber : string -> float.

Lemma read_sign_app (s rest : string) :
  delimited rest ->
  read_sign (s ++ rest)
  = (fst (read_sign s), (snd (read_sign s) ++ rest)%string).
Proof.
  intros H. destruct s as [|c s].
  - delimiter_cases H; reflexivity.
  - cbn [append read_sign]. now destruct (Ascii.eqb c "-").
Qed.

Lemma read_fraction_app (s rest : string) :
  delimited rest ->
  read_fraction (s ++ rest)
  = (fst (read_fraction s), (snd (read_fraction s) ++ rest)%string).
Proof.
  intros H. destruct s as [|c s].
  - delimiter_cases H; reflexivity.
  - cbn [append read_fraction]. destruct (Ascii.eqb c "."); [|reflexivity].
    rewrite (digits_app s rest H). now destruct (digits s).
Qed.

Lemma read_exponent_app (s rest : string) :
  delimited rest ->
  read_exponent (s ++ rest)
  = (fst (read_exponent s), (snd (read_exponent s) ++ rest)%string).
Proof.
  intros H. destruct s as [|c s].
  - delimiter_cases H; reflexivity.
  - cbn [append read_exponent].
    destruct (Ascii.eqb c "e" || Ascii.eqb c "E"); [|reflexivity].
    destruct s as [|g s].
    + delimiter_cases H; reflexivity.
    + cbn [append]. destruct (Ascii.eqb g "+" || Ascii.eqb g "-").
      * rewrite (digits_app s rest H). now destruct (digits s).
      * change (String g (s ++ rest)) with (String g s ++ rest)%string.
        rewrite (digits_app (String g s) rest H).
        now destruct (digits (String g s)).
Qed.

(** A number is read the same before a delimiter. *)
Lemma read_number_app (s rest : string) :
  delimited rest ->
  read_number StringToNumber (s ++ rest)
  = match read_number StringToNumber s with
    | inr (v, r) => inr (v, (r ++ rest)%string)
    | inl e => inl e
    end.
Proof.
  intros H. unfold read_number.
  rewrite (read_sign_app s rest H).
  destruct (read_sign s) as [sign s1]. cbn [fst snd].
  rewrite (digits_app s1 rest H).
  destruct (digits s1) as [int s2]. cbn [fst snd].
  rewrite (read_fraction_app s2 rest H).
  destruct (read_fraction s2) as [frac s3]. cbn [fst snd].
  rewrite (read_exponent_app s3 rest H).
  destruct (read_exponent s3) as [exp s4]. cbn [fst snd].
  now destruct (valid_int int && valid_fraction frac && valid_exponent exp).
Qed.

Lemma read_number_head (t : string) (r : value * string) :
  read_number StringToNumber t = inr r ->
  exists c t', t = String c t' /\ (Ascii.eqb c "-" || is_digit c) = true.
Proof.
  destruct t as [|c t]; [discriminate|].
  intros H. exists c, t. split; [reflexivity|].
  unfold read_number, read_sign in H.
  destruct (Ascii.eqb c "-"); [reflexivity|].
  cbn [digits] in H. destruct (is_digit c); [reflexivity|].
  destruct (read_fraction (String c t)) as [frac s3].
  destruct (read_exponent s3) as [exp s4].
  discriminate.
Qed.

End Numbers.

(** ** Values *)

Lemma skip_space_head (c : ascii) (t : string) :
  is_space c = false -> skip_space (String c t) = String c t.
Proof. intros H. cbn [skip_space]. now rewrite H. Qed.

Lemma value_start_facts (c : ascii) :
  value_start c = true ->
  is_space c = false /\ Ascii.eqb c "]" = false /\ Ascii.eqb c "}" = false.
Proof.
  destruct c as [[] [] [] [] [] [] [] []]; intros H; vm_compute in H;
    try discriminate H; repeat split.
Qed.

Lemma concat_comma_cons (x : string) (l : list string) :
  String.concat "," (x :: l)
  = (x ++ match l with
          | [] => ""
          | _ :: _ => String "," (String.concat "," l)
          end)%string.
Proof. destruct l; simpl; [now rewrite append_nil_r | reflexivity]. Qed.

Section RoundTrip.

Variable N2S : float -> string.
Variable S2N : string -> float.

Lemma print_data (v : value) :
  json_data N2S S2N v -> print N2S v = Some (printed N2S v).
Proof. intros H. now destruct H. Qed.

Lemma printed_array (p : prototype) (elements : list value) :
  printed N2S (JArray p elements)
  = ("[" ++ String.concat "," (map (printed N2S) elements) ++ "]")%string.
Proof. reflexivity. Qed.

Lemma flat_map_members (properties : list (string * value)) :
  Forall (fun kv => json_data N2S S2N (snd kv)) properties ->
  flat_map (fun kv : string * value =>
              let '(k, x) := kv in
              match print N2S x with
              | Some t => [(quote k ++ ":" ++ t)%string]
              | None => []
              end) properties
  = map (member_text N2S) properties.
Proof.
  induction 1 as [|[k x] l Hx _ IH]; [reflexivity|].
  cbn [flat_map]. cbn [snd] in Hx. rewrite (print_data x Hx).
  cbn [app map]. rewrite IH. reflexivity.
Qed.

Lemma printed_object (p : prototype) (properties : list (string * value)) :
  Forall (fun kv => json_data N2S S2N (snd kv)) properties ->
  printed N2S (JObject p properties)
  = ("{" ++ String.concat "," (map (member_text N2S) properties)
         ++ "}")%string.
Proof.
  intros H. unfold printed. cbn [print].
  now rewrite (flat_map_members properties H).
Qed.

Lemma printed_head (v : value) :
  json_data N2S S2N v ->
  exists c t, printed N2S v = String c t /\ value_start c = true.
Proof.
  intros H. destruct H as [|b|n [Hfin Hread]|s|elements _|properties _ Hall].
  - now exists "n"%char, "ull".
  - destruct b; [now exists "t"%char, "rue" | now exists "f"%char, "alse"].
  - destruct (read_number_head _ _ _ Hread) as (c & t & Ht & Hc).
    exists c, t. split.
    + unfold printed. cbn [print]. now rewrite Hfin.
    + unfold value_start. now rewrite Hc.
  - eexists. eexists. split; reflexivity.
  - rewrite printed_array. eexists. eexists. split; reflexivity.
  - rewrite (printed_object _ _ Hall). eexists. eexists. split; reflexivity.
Qed.

Lemma read_value_null (f : nat) (s : string) :
  read_value S2N (S f) (String "n" s) = keyword "null" JNull (String "n" s).
Proof. reflexivity. Qed.

Lemma read_value_true (f : nat) (s : string) :
  read_value S2N (S f) (String "t" s)
  = keyword "true" (JBoolean true) (String "t" s).
Proof. reflexivity. Qed.

Lemma read_value_false (f : nat) (s : string) :
  read_value S2N (S f) (String "f" s)
  = keyword "false" (JBoolean false) (String "f" s).
Proof. reflexivity. Qed.

Lemma read_value_string (f : nat) (s : string) :
  read_value S2N (S f) (String dquote s)
  = and_then (read_string s) (fun p => inr (JString (fst p), snd p)).
Proof. reflexivity. Qed.

Lemma read_value_number (f : nat) (c : ascii) (t : string) :
  (Ascii.eqb c "-" || is_digit c) = true ->
  read_value S2N (S f) (String c t) = read_number S2N (String c t).
Proof.
  destruct c as [[] [] [] [] [] [] [] []]; intros H; vm_compute in H;
    try discriminate H; reflexivity.
Qed.

Lemma read_value_array (f : nat) (s : string) :
  read_value S2N (S f) (String "[" s)
  = match skip_space s with
    | String d rest =>
        if Ascii.eqb d "]" then inr (JArray ArrayPrototype [], rest)
        else read_elements S2N f s []
    | "" => read_elements S2N f s []
    end.
Proof. reflexivity. Qed.

Lemma read_value_object (f : nat) (s : string) :
  read_value S2N (S f) (String "{" s)
  = match skip_space s with
    | String d rest =>
        if Ascii.eqb d "}" then inr (JObject ObjectPrototype [], rest)
        else read_members S2N f s []
    | "" => read_members S2N f s []
    end.
Proof. reflexivity. Qed.

Lemma read_elements_step (f : nat) (s : string) (acc : list value) :
  read_elements S2N (S f) s acc
  = match read_value S2N f s with
    | inl e => inl e
    | inr (v, rest) =>
        match skip_space rest with
        | String d rest' =>
            if Ascii.eqb d ","
            then read_elements S2N f rest' (acc ++ [v])
            else if Ascii.eqb d "]"
                 then inr (JArray ArrayPrototype (acc ++ [v]), rest')
                 else unexpected
        | "" => unexpected
        end
    end.
Proof. reflexivity. Qed.

Lemma read_members_step (f : nat) (k : string) (s : string)
      (acc : list (string * value)) :
  read_members S2N (S f)
               (String dquote (escape k ++ String dquote (String ":" s))) acc
  = match read_value S2N f s with
    | inl e => inl e
    | inr (v, rest) =>
        match skip_space rest with
        | String g r =>
            if Ascii.eqb g ","
            then read_members S2N f r (assign k v acc)
            else if Ascii.eqb g "}"
                 then inr (JObject ObjectPrototype (assign k v acc), r)
                 else unexpected
        | "" => unexpected
        end
    end.
Proof.
  change (read_members S2N (S f)
            (String dquote (escape k ++ String dquote (String ":" s))) acc)
    with (match read_string (escape k ++ String dquote (String ":" s)) with
          | inl e => inl e
          | inr (key, rest) =>
              match skip_space rest with
              | String d rest' =>
                  if Ascii.eqb d ":" then
                    match read_value S2N f rest' with
                    | inl e => inl e
                    | inr (v, rest'') =>
                        match skip_space rest'' with
                        | String g r =>
                            if Ascii.eqb g ","
                            then read_members S2N f r (assign key v acc)
                            else if Ascii.eqb g "}"
                                 then inr (JObject ObjectPrototype
                                                   (assign key v acc), r)
                                 else unexpected
                        | "" => unexpected
                        end
                    end
                  else unexpected
              | "" => unexpected
              end
          end).
  rewrite read_string_escape. reflexivity.
Qed.

(** The elements of an array are read back, in order. *)
Lemma elements_read (elements : list value) :
  Forall (fun e => forall f rest,
              (need e <= f)%nat -> delimited rest ->
              read_value S2N f (printed N2S e ++ rest) = inr (e, rest))
         elements ->
  Forall (json_data N2S S2N) elements ->
  elements <> [] ->
  forall f acc rest,
    (need_elements elements <= f)%nat ->
    read_elements S2N f
      (String.concat "," (map (printed N2S) elements) ++ String "]" rest) acc
    = inr (JArray ArrayPrototype (acc ++ elements), rest).
Proof.
  induction 1 as [|e l He Hl IH]; intros Hdata Hne f acc rest Hf;
    [congruence|].
  apply Forall_cons_iff in Hdata as [_ Hdata].
  change (need_elements (e :: l))
    with (S (Nat.max (need e) (need_elements l))) in Hf.
  destruct f as [|f]; [lia|].
  rewrite read_elements_step.
  destruct l as [|e2 l].
  - cbn [map String.concat]. rewrite He; [reflexivity | lia |].
    right. exists rest. auto.
  - change (String.concat "," (map (printed N2S) (e :: e2 :: l)))
      with (printed N2S e
            ++ String ","
                 (String.concat "," (map (printed N2S) (e2 :: l))))%string.
    rewrite append_assoc. cbn [append].
    rewrite He; [| lia | right; eexists; left; reflexivity].
    cbn [skip_space]. change (is_space ",") with false. cbv iota.
    change (Ascii.eqb "," ",") with true. cbv iota.
    rewrite IH; [| assumption | discriminate | lia].
    now rewrite <- app_assoc.
Qed.

(** The members of an object are read back, in order. *)
Lemma members_read (properties : list (string * value)) :
  Forall (fun kv => forall f rest,
              (need (snd kv) <= f)%nat -> delimited rest ->
              read_value S2N f (printed N2S (snd kv) ++ rest)
              = inr (snd kv, rest))
         properties ->
  properties <> [] ->
  forall f acc rest,
    (need_members properties <= f)%nat ->
    enumerated (map fst acc) (map fst properties) = true ->
    read_members S2N f
      (String.concat "," (map (member_text N2S) properties)
       ++ String "}" rest) acc
    = inr (JObject ObjectPrototype (acc ++ properties), rest).
Proof.
  induction 1 as [|[k x] l Hx Hl IH]; intros Hne f acc rest Hf Henum;
    [congruence|].
  cbn [snd] in Hx.
  change (need_members ((k, x) :: l))
    with (S (Nat.max (need x) (need_members l))) in Hf.
  destruct f as [|f]; [lia|].
  cbn [map fst enumerated] in Henum.
  apply andb_true_iff in Henum as [Hlast Henum].
  assert (Hassign : assign k x acc = (acc ++ [(k, x)])%list)
    by now apply assign_last.
  destruct l as [|kv2 l].
  - cbn [map String.concat]. unfold member_text at 1. cbn [fst snd].
    rewrite append_assoc, quote_append. cbn [append].
    rewrite read_members_step.
    rewrite Hx; [| lia | right; exists rest; auto].
    cbn [skip_space]. change (is_space "}") with false. cbv iota.
    change (Ascii.eqb "}" ",") with false.
    change (Ascii.eqb "}" "}") with true. cbv iota.
    now rewrite Hassign.
  - change (String.concat "," (map (member_text N2S) ((k, x) :: kv2 :: l)))
      with (member_text N2S (k, x)
            ++ String ","
                 (String.concat "," (map (member_text N2S) (kv2 :: l))))%string.
    unfold member_text at 1. cbn [fst snd].
    rewrite !append_assoc, quote_append. cbn [append].
    rewrite read_members_step.
    rewrite Hx; [| lia | right; eexists; left; reflexivity].
    cbn [skip_space]. change (is_space ",") with false. cbv iota.
    change (Ascii.eqb "," ",") with true. cbv iota.
    rewrite Hassign.
    rewrite IH; [| discriminate | lia |].
    + now rewrite <- app_assoc.
    + rewrite map_app. exact Henum.
Qed.

Lemma Forall_mp {A : Type} (P Q : A -> Prop) (l : list A) :
  Forall (fun x => P x -> Q x) l -> Forall P l -> Forall Q l.
Proof.
  induction 1 as [|x l Hx _ IH]; intros H; [constructor|].
  apply Forall_cons_iff in H as [H1 H2]. constructor; auto.
Qed.

(** The reader reads the text of plain JSON data back, up to a
    delimiter. *)
Lemma value_read (v : value) :
  json_data N2S S2N v ->
  forall f rest,
    (need v <= f)%nat -> delimited rest ->
    read_value S2N f (printed N2S v ++ rest) = inr (v, rest).
Proof.
  induction v as [| |b|n|s|p elements IH|p properties IH]
    using value_induction; intros Hd f rest Hf Hdel.
  - inversion Hd.
  - destruct f; [simpl in Hf; lia | reflexivity].
  - destruct f; [simpl in Hf; lia | now destruct b].
  - inversion Hd as [| |n' [Hfin Hread]| | |]; subst n'.
    destruct f; [simpl in Hf; lia|].
    unfold printed. cbn [print]. rewrite Hfin.
    destruct (read_number_head _ _ _ Hread) as (c & t & Ht & Hc).
    rewrite Ht. cbn [append]. rewrite (read_value_number f c _ Hc).
    change (String c (t ++ rest)) with (String c t ++ rest)%string.
    rewrite <- Ht, (read_number_app S2N _ rest Hdel), Hread. reflexivity.
  - destruct f; [simpl in Hf; lia|].
    unfold printed. cbn [print].
    rewrite quote_append, read_value_string, read_string_escape.
    reflexivity.
  - inversion Hd as [| | | |elements' Hall|]; subst.
    change (need (JArray ArrayPrototype elements))
      with (S (need_elements elements)) in Hf.
    destruct f; [lia|].
    rewrite printed_array. cbn [append]. rewrite append_assoc.
    cbn [append]. rewrite read_value_array.
    destruct elements as [|e l]; [reflexivity|].
    assert (Hhead : exists c t,
               (String.concat "," (map (printed N2S) (e :: l))
                ++ String "]" rest)%string = String c t
               /\ value_start c = true).
    { apply Forall_cons_iff in Hall as [He _].
      rewrite map_cons, concat_comma_cons.
      destruct (printed_head e He) as (c & t & -> & Hc).
      eexists. eexists. split; [reflexivity | exact Hc]. }
    destruct Hhead as (c & t & Heq & Hc).
    destruct (value_start_facts c Hc) as (Hsp & Hb & _).
    rewrite Heq, (skip_space_head c t Hsp), Hb, <- Heq.
    apply (elements_read (e :: l)); try assumption; try discriminate;
      try lia.
    now apply (Forall_mp (json_data N2S S2N)).
  - inversion Hd as [| | | | |properties' Henum Hall]; subst.
    change (need (JObject ObjectPrototype properties))
      with (S (need_members properties)) in Hf.
    destruct f; [lia|].
    rewrite (printed_object _ _ Hall). cbn [append]. rewrite append_assoc.
    cbn [append]. rewrite read_value_object.
    destruct properties as [|[k x] l]; [reflexivity|].
    change (String.concat "," (map (member_text N2S) ((k, x) :: l)))
      with (String.concat "," (member_text N2S (k, x)
                               :: map (member_text N2S) l)).
    assert (Hhead : exists t,
               (String.concat "," (member_text N2S (k, x)
                                   :: map (member_text N2S) l)
                ++ String "}" rest)%string = String dquote t).
    { rewrite concat_comma_cons. unfold member_text at 1, quote.
      eexists. reflexivity. }
    destruct Hhead as (t & Heq).
    rewrite Heq at 1. rewrite (skip_space_head dquote t eq_refl).
    change (Ascii.eqb dquote "}") with false. cbv iota.
    apply (members_read ((k, x) :: l)); try assumption; try discriminate;
      try lia.
    now apply (Forall_mp (fun kv => json_data N2S S2N (snd kv))).
Qed.

Lemma need_elements_length (elements : list value) :
  Forall (fun e => (need e <= String.length (printed N2S e))%nat) elements ->
  (need_elements elements
   <= S (String.length (String.concat "," (map (printed N2S) elements))))%nat.
Proof.
  induction 1 as [|e l He _ IH]; [simpl; lia|].
  change (need_elements (e :: l))
    with (S (Nat.max (need e) (need_elements l))).
  rewrite map_cons, concat_comma_cons, length_append.
  destruct l as [|e2 l]; [simpl; lia|].
  cbn [map String.length] in *. lia.
Qed.

Lemma need_members_length (properties : list (string * value)) :
  Forall (fun kv => (need (snd kv)
                     <= String.length (printed N2S (snd kv)))%nat)
         properties ->
  (need_members properties
   <= S (String.length
           (String.concat "," (map (member_text N2S) properties))))%nat.
Proof.
  induction 1 as [|[k x] l Hx _ IH]; [simpl; lia|].
  change (need_members ((k, x) :: l))
    with (S (Nat.max (need x) (need_members l))).
  rewrite map_cons, concat_comma_cons, length_append.
  unfold member_text at 1. rewrite !length_append. cbn [fst snd] in *.
  destruct l as [|kv2 l]; [simpl; lia|].
  cbn [map String.length] in *. lia.
Qed.

(** The fuel of [read] is enough for a printed text. *)
Lemma need_length (v : value) :
  json_data N2S S2N v ->
  (need v <= String.length (printed N2S v))%nat.
Proof.
  induction v as [| |b|n|s|p elements IH|p properties IH]
    using value_induction; intros Hd.
  - inversion Hd.
  - simpl. lia.
  - destruct b; simpl; lia.
  - destruct (printed_head _ Hd) as (c & t & -> & _). simpl. lia.
  - destruct (printed_head _ Hd) as (c & t & -> & _). simpl. lia.
  - inversion Hd as [| | | |elements' Hall|]; subst.
    change (need (JArray ArrayPrototype elements))
      with (S (need_elements elements)).
    rewrite printed_array. cbn [append String.length].
    rewrite length_append. cbn [String.length].
    pose proof (need_elements_length elements
                  (Forall_mp _ _ _ IH Hall)).
    lia.
  - inversion Hd as [| | | | |properties' Henum Hall]; subst.
    change (need (JObject ObjectPrototype properties))
      with (S (need_members properties)).
    rewrite (printed_object _ _ Hall). cbn [append String.length].
    rewrite length_append. cbn [String.length].
    pose proof (need_members_length properties
                  (Forall_mp (fun kv => json_data N2S S2N (snd kv)) _ _
                             IH Hall)).
    lia.
Qed.

(** Reading the text of plain JSON data gives the data back. *)
Lemma read_print (v : value) :
  json_data N2S S2N v ->
  read S2N (text (print N2S v)) = inr v.
Proof.
  intros Hd. rewrite (print_data v Hd). cbn [text]. unfold read.
  pose proof (need_length v Hd) as Hn.
  rewrite <- (append_nil_r (printed N2S v)) at 2.
  rewrite (value_read v Hd); [reflexivity | lia | now left].
Qed.

Lemma print_plain (v : value) : print N2S (plain v) = print N2S v.
Proof. now destruct v. Qed.

(** Every value whose content is plain JSON data comes back from its JSON
    text as that data. *)
Lemma data_representable (v : value) :
  json_data N2S S2N (plain v) ->
  representable (print N2S) (read S2N) v.
Proof.
  intros Hd. unfold representable.
  rewrite <- print_plain. now apply read_print.
Qed.

End RoundTrip.

(** ** fromJSON after getJSON *)

Lemma setPrototypeOf_plain (v : value) (proto : prototype) :
  is_object v = true ->
  setPrototypeOf (plain v) proto = inr (with_prototype proto v).
Proof. destruct v; simpl; intros H; try discriminate; reflexivity. Qed.

Lemma plain_with_prototype (v : value) (proto : prototype) :
  plain (with_prototype proto v) = plain v.
Proof. now destruct v. Qed.




(** C10: for all numbers [w] and [h], [new Rectangle(w, h)] has [width]
    [w] and [height] [h], and its [getArea()] returns [w * h]; with 10 and
    20 it returns 200. *)
Theorem Rectangle_getArea
        (StringToNumber : string -> float)
        (ObjectToNumber : value -> result float)
        (w h : float) :
  let r := Rectangle (JNumber w) (JNumber h) in
  r = JObject RectanglePrototype [("width", JNumber w); ("height", JNumber h)]
  /\ getProperty r "width" = inr (JNumber w)
  /\ getProperty r "height" = inr (JNumber h)
  /\ callMethod StringToNumber ObjectToNumber r "getArea"
     = inr (JNumber (w * h))
  /\ callMethod StringToNumber ObjectToNumber
                (Rectangle (JNumber 10) (JNumber 20)) "getArea"
     = inr (JNumber 200).
Proof. repeat split. Qed.

(** * Examples *)

(** The entry points of [cssSelectorBuilder] call a part method on a new
    selector, which always returns. *)
Lemma builder_starts (k : category) (v : string) :
  cssSelectorBuilder.start (invoke (k, v)) = inr (store k v CssSelector.new).
Proof. now destruct k. Qed.

Example builder_element :
  cssSelectorBuilder.element "a"
  = inr (store ElementPart "a" CssSelector.new).
Proof. reflexivity. Qed.

(** [element('a').attr('href$=".png"').pseudoClass('focus')] *)
Example scenario_attr :
  let png := ("href$=" ++ String dquote ".png" ++ String dquote "")%string in
  snd (CssSelector.stringify
         (after [(ElementPart, "a"); (AttributePart, png);
                 (PseudoClassPart, "focus")] CssSelector.new))
  = inr ("a[" ++ png ++ "]:focus")%string.
Proof. reflexivity. Qed.

(** [element('div').id('main').stringify()], then [.class('x')]. *)
Example scenario_stringify_then_class :
  let s := after [(ElementPart, "div"); (IdPart, "main")] CssSelector.new in
  CssSelector.stringify s = (s, inr "div#main")
  /\ snd (CssSelector.stringify
            (fst (bind CssSelector.stringify
                       (fun _ => CssSelector.class "x") s)))
     = inr "div#main.x".
Proof. split; reflexivity. Qed.

(** [id('a').element('div')] and [element('a').element('b')] throw. *)
Example scenario_wrong_order :
  snd (chain [(IdPart, "a"); (ElementPart, "div")] CssSelector.new)
  = inl (Error CssSelector.order_message).
Proof. reflexivity. Qed.

Example scenario_duplicate :
  snd (chain [(ElementPart, "a"); (ElementPart, "b")] CssSelector.new)
  = inl (Error CssSelector.duplicate_message).
Proof. reflexivity. Qed.

(** The nested [combine] of the source's documentation. *)
Example scenario_combine :
  let built (cs : list call) := Selector (after cs CssSelector.new) in
  let even := "nth-of-type(even)" in
  snd (CssSelectorCombinator.stringify
         (cssSelectorBuilder.combine
            (built [(ElementPart, "div"); (IdPart, "main");
                    (ClassPart, "container"); (ClassPart, "draggable")])
            "+"
            (cssSelectorBuilder.combine
               (built [(ElementPart, "table"); (IdPart, "data")])
               "~"
               (cssSelectorBuilder.combine
                  (built [(ElementPart, "tr"); (PseudoClassPart, even)])
                  " "
                  (built [(ElementPart, "td"); (PseudoClassPart, even)])))))
  = inr "div#main.container.draggable + table#data ~ tr:nth-of-type(even)   td:nth-of-type(even)".
Proof. reflexivity. Qed.

(** [getJSON([1,2,3])] with the printer of the examples. *)
Example getJSON_array :
  getJSON (print integer_text)
          (JArray ArrayPrototype [JNumber 1; JNumber 2; JNumber 3])
  = Some "[1,2,3]".
Proof. vm_compute. reflexivity. Qed.

(** * Further properties of the selector builder *)

Lemma chain_app (cs1 cs2 : list call) (s : CssSelector.t) :
  chain (cs1 ++ cs2) s
  = match chain cs1 s with
    | (s1, inr _) => chain cs2 s1
    | (s1, inl e) => (s1, inl e)
    end.
Proof.
  revert s. induction cs1 as [|c cs1 IH]; intros s; [reflexivity|].
  simpl. unfold bind. destruct (invoke c s) as [s1 [e|u]]; [reflexivity|].
  apply IH.
Qed.

Lemma written_chain (cs : list call) :
  forall s s',
    invariant s ->
    chain cs s = (s', inr tt) ->
    invariant s'
    /\ written s' = (written s ++ String.concat "" (map call_text cs))%string.
Proof.
  induction cs as [|[k v] cs IH]; intros s s' Hinv H.
  - injection H as <-. simpl. now rewrite append_nil_r.
  - simpl in H. unfold bind in H.
    destruct (invoke (k, v) s) as [s1 [e|[]]] eqn:E; [discriminate|].
    pose proof (invoke_preserves (k, v) s Hinv) as Hinv1.
    rewrite E in Hinv1. simpl in Hinv1.
    destruct (IH s1 s' Hinv1 H) as [Hinv' Hw]. split; [assumption|].
    rewrite Hw, (written_invoke k v s s1 Hinv E).
    simpl map. rewrite concat_cons, append_assoc. reflexivity.
Qed.

Lemma messages_differ :
  CssSelector.duplicate_message <> CssSelector.order_message.
Proof. discriminate. Qed.

Lemma last_rank (cs : list call) (k : category) :
  lastCategory (recorded cs CssSelector.new) = Some k <->
  CssSelector.rank (after cs CssSelector.new) = stageIndex k.
Proof.
  destruct (rank_recorded cs) as [Hrank _]. cbv zeta in Hrank.
  rewrite Hrank.
  destruct (lastCategory (recorded cs CssSelector.new)) as [k'|]; simpl.
  - split; [now intros [= ->] | intros H; f_equal; now apply stageIndex_inj].
  - pose proof (stageIndex_range k). split; [discriminate | lia].
Qed.

(** X1: which of the two messages a part call throws.  It throws the
    message about a part occurring more than once exactly when its category
    is a singleton and is the category recorded last, and the message about
    the order exactly when its category is strictly earlier than the one
    recorded last; so a singleton set again after a later part was added is
    reported as out of order. *)
Theorem part_call_messages (cs : list call) (c : call) :
  let s := after cs CssSelector.new in
  let done := recorded cs CssSelector.new in
  (invoke c s = (s, inl (Error CssSelector.duplicate_message))
   <-> singleton (fst c) = true /\ lastCategory done = Some (fst c))
  /\ (invoke c s = (s, inl (Error CssSelector.order_message))
      <-> exists k, lastCategory done = Some k /\ earlier (fst c) k).
Proof.
  intros s done. destruct c as [k v]. simpl fst.
  assert (Hinv : invariant s) by apply after_preserves, new_invariant.
  assert (Hlast : forall k', lastCategory done = Some k'
                             <-> CssSelector.rank s = stageIndex k')
    by (intros k'; apply (last_rank cs k')).
  assert (Hsome : stageIndex k < CssSelector.rank s ->
                  exists k', lastCategory done = Some k').
  { intros Hlt. destruct (lastCategory done) as [k'|] eqn:E; [now eexists|].
    destruct (rank_recorded cs) as [Hrank _]. cbv zeta in Hrank.
    fold s done in Hrank. rewrite E in Hrank. simpl in Hrank.
    pose proof (stageIndex_range k). lia. }
  pose proof messages_differ as Hdiff.
  rewrite (invoke_invariant k v s Hinv).
  set (c1 := (CssSelector.rank s =? stageIndex k) && singleton k).
  set (c2 := stageIndex k <? CssSelector.rank s).
  assert (H1 : c1 = true
               <-> singleton k = true /\ lastCategory done = Some k).
  { unfold c1. rewrite andb_true_iff, Z.eqb_eq, Hlast. tauto. }
  assert (H2 : c1 = false /\ c2 = true
               <-> exists k', lastCategory done = Some k' /\ earlier k k').
  { unfold c1, c2. rewrite Z.ltb_lt. split.
    - intros [_ Hlt]. destruct (Hsome Hlt) as [k' Hk']. exists k'.
      split; [assumption|]. apply earlier_stageIndex.
      apply Hlast in Hk'. lia.
    - intros [k' [Hk' He]]. apply Hlast in Hk'.
      apply earlier_stageIndex in He. split; [|lia].
      apply andb_false_iff. left. apply Z.eqb_neq. lia. }
  rewrite <- H1, <- H2.
  destruct c1, c2; split; split; intros H;
    try reflexivity; try congruence; try tauto;
    try (destruct H; congruence).
Qed.

(** X2: a pseudo-element closes the selector: once a [pseudoElement] call
    has returned and is the part recorded last, every part call throws and
    leaves the selector as it is. *)
Theorem pseudoElement_closes (cs : list call) (c : call) :
  lastCategory (recorded cs CssSelector.new) = Some PseudoElementPart ->
  let s := after cs CssSelector.new in
  exists message, invoke c s = (s, inl (Error message)).
Proof.
  intros Hlast s. apply last_rank in Hlast. fold s in Hlast.
  assert (Hinv : invariant s) by apply after_preserves, new_invariant.
  destruct c as [k v]. rewrite (invoke_invariant k v s Hinv), Hlast.
  destruct k; simpl; now eexists.
Qed.

Lemma pseudoElement_closes_witness :
  let s := after [(ElementPart, "p"); (PseudoElementPart, "first-line")]
                 CssSelector.new in
  (exists message, invoke (PseudoClassPart, "hover") s
                   = (s, inl (Error message)))
  /\ (exists message, invoke (PseudoElementPart, "after") s
                      = (s, inl (Error message))).
Proof.
  split.
  - exact (pseudoElement_closes
             [(ElementPart, "p"); (PseudoElementPart, "first-line")]
             (PseudoClassPart, "hover") eq_refl).
  - exact (pseudoElement_closes
             [(ElementPart, "p"); (PseudoElementPart, "first-line")]
             (PseudoElementPart, "after") eq_refl).
Defined.

(** X3: the six entry points of [cssSelectorBuilder] never throw, whatever
    the value: each returns a selector that holds that one part, and whose
    [stringify] returns the part alone, nothing at all for an empty element,
    id or pseudo-element. *)
Theorem builder_entry_points (value : string) :
  let starts (r : result CssSelector.t) (k : category) :=
    exists s,
      r = inr s
      /\ chain [(k, value)] CssSelector.new = (s, inr tt)
      /\ CssSelector.stringify s = (s, inr (call_text (k, value))) in
  starts (cssSelectorBuilder.element value) ElementPart
  /\ starts (cssSelectorBuilder.id value) IdPart
  /\ starts (cssSelectorBuilder.class value) ClassPart
  /\ starts (cssSelectorBuilder.attr value) AttributePart
  /\ starts (cssSelectorBuilder.pseudoClass value) PseudoClassPart
  /\ starts (cssSelectorBuilder.pseudoElement value) PseudoElementPart.
Proof.
  assert (H : forall k,
             exists s,
               cssSelectorBuilder.start (invoke (k, value)) = inr s
               /\ chain [(k, value)] CssSelector.new = (s, inr tt)
               /\ CssSelector.stringify s = (s, inr (call_text (k, value)))).
  { intros k. exists (store k value CssSelector.new).
    assert (E : invoke (k, value) CssSelector.new
                = (store k value CssSelector.new, inr tt))
      by now destruct k.
    split; [now destruct k|]. split.
    - simpl chain. unfold bind. now rewrite E.
    - rewrite stringify_written.
      now rewrite (written_invoke k value _ _ new_invariant E). }
  cbv zeta. repeat split;
    [apply (H ElementPart) | apply (H IdPart) | apply (H ClassPart)
     | apply (H AttributePart) | apply (H PseudoClassPart)
     | apply (H PseudoElementPart)].
Qed.

Lemma invoke_admits (k : category) (v : string) (s : CssSelector.t) :
  invariant s ->
  (exists s', invoke (k, v) s = (s', inr tt))
  <-> CssSelector.rank s < stageIndex k
      \/ (CssSelector.rank s = stageIndex k /\ multi_valued k = true).
Proof.
  intros Hinv. split.
  - intros [s' E]. apply invoke_returns in E as (_ & Hle & Hm); [|assumption].
    destruct (Z.eq_dec (CssSelector.rank s) (stageIndex k)) as [E|E];
      [right; split; [assumption | now apply Hm] | left; lia].
  - intros H. exists (store k v s). rewrite invoke_invariant by assumption.
    destruct H as [H|[H Hm]].
    + replace (CssSelector.rank s =? stageIndex k) with false
        by (symmetry; apply Z.eqb_neq; lia).
      replace (stageIndex k <? CssSelector.rank s) with false
        by (symmetry; apply Z.ltb_ge; lia).
      reflexivity.
    + rewrite singleton_multi_valued, Hm, andb_false_r.
      now rewrite H, Z.ltb_irrefl.
Qed.

Lemma chain_returns_iff (cs : list call) :
  forall s,
    invariant s ->
    (exists s', chain cs s = (s', inr tt))
    <-> Sorted follows (map fst cs)
        /\ match cs with
           | [] => True
           | c :: _ =>
               CssSelector.rank s < stageIndex (fst c)
               \/ (CssSelector.rank s = stageIndex (fst c)
                   /\ multi_valued (fst c) = true)
           end.
Proof.
  induction cs as [|[k v] cs IH]; intros s Hinv.
  - split; [intros _; split; [constructor | exact I]|].
    intros _. now exists s.
  - simpl map. simpl fst. split.
    + intros [s' H]. simpl in H. unfold bind in H.
      destruct (invoke (k, v) s) as [s1 [e|[]]] eqn:E; [discriminate|].
      assert (Hadm := proj1 (invoke_admits k v s Hinv) (ex_intro _ s1 E)).
      split; [|assumption].
      apply invoke_returns in E as (-> & _ & _); [|assumption].
      assert (Hinv1 : invariant (store k v s)).
      { apply store_invariant; [assumption|]. destruct Hadm as [?|[? _]]; lia. }
      destruct (proj1 (IH _ Hinv1) (ex_intro _ s' H)) as [Hs Hhd].
      constructor; [assumption|].
      destruct cs as [|[k2 v2] cs]; constructor.
      simpl in Hhd. rewrite rank_store in Hhd. unfold follows.
      destruct Hhd as [Hlt|[Heq Hm]].
      * left. now apply earlier_stageIndex.
      * right. apply stageIndex_inj in Heq. subst k2. now split.
    + intros [Hs Hadm].
      destruct (proj2 (invoke_admits k v s Hinv) Hadm) as [s1 E].
      pose proof E as E'.
      apply invoke_returns in E' as (-> & _ & _); [|assumption].
      assert (Hinv1 : invariant (store k v s)).
      { apply store_invariant; [assumption|]. destruct Hadm as [?|[? _]]; lia. }
      apply Sorted_inv in Hs as [Hs Hhd].
      destruct (proj2 (IH _ Hinv1)) as [s' H].
      { split; [assumption|].
        destruct cs as [|[k2 v2] cs]; [exact I|].
        simpl. rewrite rank_store. apply HdRel_inv in Hhd.
        destruct Hhd as [He|[-> Hm]].
        - left. now apply earlier_stageIndex.
        - right. now split. }
      exists s'. simpl. unfold bind. now rewrite E.
Qed.

(** X4: which chains of part calls a new selector accepts: the chain
    returns exactly when each call's category either is strictly later than
    the category of the call before it or repeats it and is multi-valued;
    the values play no part. *)
Theorem chain_accepted_iff (cs : list call) :
  (exists s, chain cs CssSelector.new = (s, inr tt))
  <-> Sorted follows (map fst cs).
Proof.
  rewrite (chain_returns_iff cs CssSelector.new new_invariant).
  split; [tauto|]. intros H. split; [assumption|].
  destruct cs as [|[k v] cs]; [exact I|].
  left. simpl. pose proof (stageIndex_range k). lia.
Qed.

(** X5: later calls only append to the output: when a chain of calls on a
    new selector returns, so does each of its beginnings, and [stringify]
    after the whole chain is [stringify] after the beginning followed by
    what each later call adds, in call order. *)
Theorem stringify_appends (cs1 cs2 : list call) (s : CssSelector.t) :
  chain (cs1 ++ cs2) CssSelector.new = (s, inr tt) ->
  exists (s1 : CssSelector.t) (str : string),
    chain cs1 CssSelector.new = (s1, inr tt)
    /\ chain cs2 s1 = (s, inr tt)
    /\ CssSelector.stringify s1 = (s1, inr str)
    /\ CssSelector.stringify s
       = (s, inr (str ++ String.concat "" (map call_text cs2))%string).
Proof.
  intros H. rewrite chain_app in H.
  destruct (chain cs1 CssSelector.new) as [s1 [e|[]]] eqn:E1; [discriminate|].
  exists s1, (written s1).
  destruct (written_chain cs1 _ _ new_invariant E1) as [Hinv1 _].
  destruct (written_chain cs2 _ _ Hinv1 H) as [_ Hw].
  rewrite !stringify_written, Hw. auto.
Qed.

Lemma stringify_appends_witness :
  exists (s1 : CssSelector.t) (str : string),
    chain [(ElementPart, "a"); (IdPart, "")] CssSelector.new = (s1, inr tt)
    /\ str = "a"
    /\ CssSelector.stringify
         (after [(ElementPart, "a"); (IdPart, ""); (ClassPart, "b");
                 (AttributePart, "c")] CssSelector.new)
       = (after [(ElementPart, "a"); (IdPart, ""); (ClassPart, "b");
                 (AttributePart, "c")] CssSelector.new,
          inr "a.b[c]").
Proof.
  destruct (stringify_appends
              [(ElementPart, "a"); (IdPart, "")]
              [(ClassPart, "b"); (AttributePart, "c")] _ eq_refl)
    as (s1 & str & H1 & _ & H3 & H4).
  exists s1, str. split; [exact H1|].
  injection H1 as <-. rewrite stringify_written in H3.
  injection H3 as <-. split; [reflexivity | exact H4].
Defined.

(** X6: a chain that throws stops at the offending call: the selector is
    left holding exactly the parts of the calls before it, which all
    returned, and the exception is the one that call throws there, with one
    of the two messages of [checkRules]. *)
Theorem chain_throws (cs : list call) (s0 s : CssSelector.t) (e : exn) :
  chain cs s0 = (s, inl e) ->
  exists (cs1 : list call) (c : call) (cs2 : list call),
    cs = (cs1 ++ c :: cs2)%list
    /\ chain cs1 s0 = (s, inr tt)
    /\ invoke c s = (s, inl e)
    /\ (e = Error CssSelector.duplicate_message
        \/ e = Error CssSelector.order_message).
Proof.
  revert s0. induction cs as [|c cs IH]; intros s0 H; [discriminate|].
  simpl in H. unfold bind in H.
  destruct (invoke c s0) as [s1 [e1|[]]] eqn:E.
  - injection H as <- <-. exists [], c, cs.
    pose proof (invoke_throws _ _ _ _ E) as ->.
    repeat split; try assumption.
    destruct c as [k v]. rewrite invoke_eq in E.
    destruct (_ && _); [left; congruence|].
    destruct (_ <? _); [right; congruence | discriminate].
  - destruct (IH _ H) as (cs1 & c' & cs2 & -> & H1 & H2 & H3).
    exists (c :: cs1), c', cs2. repeat split; try assumption.
    simpl. unfold bind. now rewrite E.
Qed.

Lemma chain_throws_witness :
  let s := after [(ElementPart, "a"); (ClassPart, "b")] CssSelector.new in
  exists (cs1 : list call) (c : call) (cs2 : list call),
    [(ElementPart, "a"); (ClassPart, "b"); (IdPart, "c"); (ClassPart, "d")]
    = (cs1 ++ c :: cs2)%list
    /\ chain cs1 CssSelector.new = (s, inr tt)
    /\ invoke c s = (s, inl (Error CssSelector.order_message)).
Proof.
  intros s.
  destruct (chain_throws
              [(ElementPart, "a"); (ClassPart, "b"); (IdPart, "c");
               (ClassPart, "d")]
              CssSelector.new s (Error CssSelector.order_message) eq_refl)
    as (cs1 & c & cs2 & H1 & H2 & H3 & _).
  exists cs1, c, cs2. repeat split; assumption.
Defined.

(** X7: calls that threw can be left out: the selector that a caller who
    catches the exceptions ends up with is the one that the chain of just
    the calls that returned builds, and that chain returns. *)
Theorem failed_calls_drop_out (cs : list call) (s0 : CssSelector.t) :
  chain (recorded cs s0) s0 = (after cs s0, inr tt).
Proof.
  revert s0. induction cs as [|c cs IH]; intros s0; [reflexivity|].
  simpl. destruct (invoke c s0) as [s1 [e|[]]] eqn:E;
    unfold returned; simpl.
  - apply invoke_throws in E. subst s1. apply IH.
  - unfold bind. rewrite E. apply IH.
Qed.

(** X8: [stringify] of a selector-like object writes its selectors and
    combinators from left to right, each combinator between two spaces, and
    leaves the object unchanged; so two objects with the same selectors and
    combinators in the same order have the same text, however their
    [combine] calls are nested. *)
Theorem stringify_tokens (x : selector) :
  CssSelectorCombinator.stringify x
  = (x, inr (String.concat "" (map token_text (tokens x))))
  /\ forall y : selector,
      tokens x = tokens y ->
      snd (CssSelectorCombinator.stringify x)
      = snd (CssSelectorCombinator.stringify y).
Proof.
  assert (H : forall z : selector,
             CssSelectorCombinator.stringify z
             = (z, inr (String.concat "" (map token_text (tokens z))))).
  { induction z as [s|a IHa c b IHb];
      cbn [CssSelectorCombinator.stringify tokens].
    - rewrite stringify_written. reflexivity.
    - rewrite IHa, IHb, map_app, concat_app. cbn [map].
      rewrite concat_cons. cbn [token_text].
      now rewrite !append_assoc. }
  split; [apply H|].
  intros y Hxy. now rewrite (H x), (H y), Hxy.
Qed.

Lemma stringify_tokens_witness :
  let a := Selector (after [(ElementPart, "ul")] CssSelector.new) in
  let b := Selector (after [(ElementPart, "li")] CssSelector.new) in
  let c := Selector (after [(ClassPart, "x")] CssSelector.new) in
  let combine := cssSelectorBuilder.combine in
  snd (CssSelectorCombinator.stringify (combine (combine a ">" b) "+" c))
  = snd (CssSelectorCombinator.stringify (combine a ">" (combine b "+" c)))
  /\ snd (CssSelectorCombinator.stringify (combine (combine a ">" b) "+" c))
     = inr "ul > li + .x".
Proof.
  intros a b c combine. split.
  - exact (proj2 (stringify_tokens (combine (combine a ">" b) "+" c))
                 (combine a ">" (combine b "+" c)) eq_refl).
  - reflexivity.
Defined.

(** X9: in every state that calls of part methods can bring a new selector
    to, [multipleDataItem] is still [3, 4, 5], [rank] is between 0 and 6,
    and the fields of the stages after [rank] are as the constructor left
    them; a selector whose [rank] is 0 is still a new one. *)
Theorem selector_invariant (s : CssSelector.t) :
  reachable s ->
  invariant s /\ (CssSelector.rank s = 0 -> s = CssSelector.new).
Proof.
  intros [cs ->].
  assert (H : invariant (after cs CssSelector.new))
    by apply after_preserves, new_invariant.
  split; [assumption|].
  destruct H as [Hm _ He Hi Hc Ha Hp Hq].
  destruct (after cs CssSelector.new) as [e i c a p q m r].
  simpl in *. intros ->.
  rewrite Hm, He, Hi, Hc, Ha, Hp, Hq by lia. reflexivity.
Qed.

Lemma selector_invariant_witness :
  let s := after [(IdPart, "a"); (ElementPart, "b"); (AttributePart, "c")]
                 CssSelector.new in
  invariant s /\ (CssSelector.rank s = 0 -> s = CssSelector.new).
Proof.
  intros s. apply selector_invariant.
  now exists [(IdPart, "a"); (ElementPart, "b"); (AttributePart, "c")].
Defined.

(** * Further properties of Rectangle and the JSON helpers *)

Lemma mul_nan_l (y : float) : (nan * y)%float = nan.
Proof.
  apply Prim2SF_inj. rewrite mul_spec.
  change (Prim2SF nan) with SpecFloat.S754_nan. reflexivity.
Qed.

Lemma mul_nan_r (x : float) : (x * nan)%float = nan.
Proof.
  apply Prim2SF_inj. rewrite mul_spec.
  change (Prim2SF nan) with SpecFloat.S754_nan.
  unfold SF64mul, SpecFloat.SFmul. now destruct (Prim2SF x).
Qed.

Lemma ToNumber_primitive
      (StringToNumber : string -> float)
      (ObjectToNumber : value -> result float) (v : value) :
  is_object v = false ->
  exists x, ToNumber StringToNumber ObjectToNumber v = inr x.
Proof. destruct v; simpl; intros H; try discriminate; now eexists. Qed.

(** X10: [getArea] called on an object that has [Rectangle.prototype], no
    property of its own named [getArea], and for [width] and [height], when
    it has them, [null], a boolean, a number or a string, returns a number;
    that number is NaN when [width] or [height] is missing. *)
Theorem getArea_missing_field
        (StringToNumber : string -> float)
        (ObjectToNumber : value -> result float)
        (properties : list (string * value)) :
  lookup "getArea" properties = None ->
  (forall v, lookup "width" properties = Some v -> is_object v = false) ->
  (forall v, lookup "height" properties = Some v -> is_object v = false) ->
  exists n : float,
    callMethod StringToNumber ObjectToNumber
               (JObject RectanglePrototype properties) "getArea"
    = inr (JNumber n)
    /\ (lookup "width" properties = None
        \/ lookup "height" properties = None -> n = nan).
Proof.
  intros Hown Hw Hh. unfold callMethod. rewrite Hown.
  cbn [methodOf String.eqb Ascii.eqb Bool.eqb].
  unfold getArea, getProperty. cbn [and_then]. unfold multiply.
  assert (Hx : exists x,
             ToNumber StringToNumber ObjectToNumber
                      match lookup "width" properties with
                      | Some v => v
                      | None => JUndefined
                      end = inr x
             /\ (lookup "width" properties = None -> x = nan)).
  { destruct (lookup "width" properties) as [v|].
    - destruct (ToNumber_primitive StringToNumber ObjectToNumber v
                                   (Hw v eq_refl)) as [x Hx].
      exists x. split; [assumption | discriminate].
    - exists nan. now split. }
  assert (Hy : exists y,
             ToNumber StringToNumber ObjectToNumber
                      match lookup "height" properties with
                      | Some v => v
                      | None => JUndefined
                      end = inr y
             /\ (lookup "height" properties = None -> y = nan)).
  { destruct (lookup "height" properties) as [v|].
    - destruct (ToNumber_primitive StringToNumber ObjectToNumber v
                                   (Hh v eq_refl)) as [y Hy].
      exists y. split; [assumption | discriminate].
    - exists nan. now split. }
  destruct Hx as (x & -> & Hxn). destruct Hy as (y & -> & Hyn).
  cbn [and_then]. exists (x * y)%float. split; [reflexivity|].
  intros [H|H].
  - rewrite (Hxn H). apply mul_nan_l.
  - rewrite (Hyn H). apply mul_nan_r.
Qed.

Lemma getArea_missing_field_witness :
  callMethod integer_value (fun _ => inr nan)
             (JObject RectanglePrototype [("width", JNumber 3)]) "getArea"
  = inr (JNumber nan).
Proof.
  assert (Hw : forall v,
             lookup "width" [("width", JNumber 3)] = Some v ->
             is_object v = false)
    by (intros v H; injection H as <-; reflexivity).
  assert (Hh : forall v,
             lookup "height" [("width", JNumber 3)] = Some v ->
             is_object v = false)
    by (intros v H; discriminate H).
  destruct (getArea_missing_field integer_value (fun _ => inr nan)
                                  [("width", JNumber 3)] eq_refl Hw Hh)
    as (n & H1 & H2).
  rewrite H1, (H2 (or_intror eq_refl)). reflexivity.
Defined.

(** X11: when [fromJSON] throws and what it returns otherwise.  It throws
    what [JSON.parse] throws, and a [TypeError] when [JSON.parse] returns
    [null] or [undefined]; it returns an object or an array that
    [JSON.parse] made with [proto] as its prototype and its content
    untouched, and a boolean, number or string as it is. *)
Theorem fromJSON_outcomes
        (JSON_parse : string -> result value)
        (proto : prototype) (json : string) :
  (forall e, JSON_parse json = inl e ->
             fromJSON JSON_parse proto json = inl e)
  /\ (forall v, JSON_parse json = inr v ->
                match v with
                | JUndefined | JNull =>
                    exists message,
                      fromJSON JSON_parse proto json
                      = inl (TypeError message)
                | JArray _ elements =>
                    fromJSON JSON_parse proto json
                    = inr (JArray proto elements)
                | JObject _ properties =>
                    fromJSON JSON_parse proto json
                    = inr (JObject proto properties)
                | _ => fromJSON JSON_parse proto json = inr v
                end)
  /\ ((exists e, fromJSON JSON_parse proto json = inl e)
      <-> (exists e, JSON_parse json = inl e)
          \/ JSON_parse json = inr JNull
          \/ JSON_parse json = inr JUndefined).
Proof.
  unfold fromJSON.
  destruct (JSON_parse json) as [e|v] eqn:E; simpl.
  - split; [now intros e' [= ->]|]. split; [discriminate|].
    split; [intros _; left; now exists e | intros _; now exists e].
  - split; [discriminate|]. split.
    + intros v' [= <-]. destruct v; simpl; try reflexivity; now eexists.
    + destruct v; simpl; split;
        try (intros [e H]; discriminate);
        try (intros [[e H]|[H|H]]; discriminate);
        try (intros _; now eexists);
        try (intros _; right; auto).
Qed.

Lemma fromJSON_outcomes_witness :
  let parse := read integer_value in
  (exists message,
      fromJSON parse RectanglePrototype "null" = inl (TypeError message))
  /\ fromJSON parse RectanglePrototype "[1]"
     = inr (JArray RectanglePrototype [JNumber 1])
  /\ fromJSON parse RectanglePrototype "{"
     = inl (SyntaxError "Unexpected end of JSON input")
  /\ exists e, fromJSON parse RectanglePrototype "undefined" = inl e.
Proof.
  intros parse.
  destruct (fromJSON_outcomes parse RectanglePrototype "null")
    as (_ & Hnull & _).
  destruct (fromJSON_outcomes parse RectanglePrototype "[1]")
    as (_ & Harr & _).
  destruct (fromJSON_outcomes parse RectanglePrototype "{")
    as (Hthrow & _ & _).
  destruct (fromJSON_outcomes parse RectanglePrototype "undefined")
    as (_ & _ & Hiff).
  split; [exact (Hnull JNull eq_refl)|].
  split; [exact (Harr (JArray ArrayPrototype [JNumber 1]) eq_refl)|].
  split; [exact (Hthrow _ eq_refl)|].
  apply (proj2 Hiff). left. eexists. reflexivity.
Defined.
